(** * Temple finder: scoring, filtering, ranking and insights

    A shallow embedding of [src/app/components/TempleFinder.tsx]: the facet
    lists computed at module scope, [scoreTemple], [matchesFilters], the
    [rankedTemples] pipeline and the [insights] aggregate.

    Conventions of the embedding.
    - A JavaScript string is a [string] of code units below 256; the
      built-ins [toLowerCase], [trim], [includes] and [join] are written out
      on that alphabet.
    - JavaScript numbers are exact: [Z] where the source only ever holds
      integers ([founded], occurrence counts), [Q] elsewhere
      ([significanceScore], scores, the average).  Rounding error of the
      binary floating-point representation is not modelled.
    - [undefined] is [None].
    - The catalog [temples] is imported by the source from a data module; the
      functions below take it as an argument. *)

From Stdlib Require Import List String Ascii Bool Arith ZArith QArith Qround.
From Stdlib Require Import Lia Lqa Permutation Sorted.
Import ListNotations.

Local Open Scope string_scope.
Local Open Scope Z_scope.

(* ------------------------------------------------------------------ *)
(** ** String built-ins *)

Module JsString.

Definition code (c : ascii) : N := N_of_ascii c.

(** Code units with a lower-case counterpart: A-Z and the Latin-1 capitals
    (0xC0-0xDE, the multiplication sign 0xD7 excepted). *)
Definition is_upper (c : ascii) : bool :=
  let n := code c in
  ((65 <=? n) && (n <=? 90) || (192 <=? n) && (n <=? 222) && negb (n =? 215))%N.

Definition lower_char (c : ascii) : ascii :=
  if is_upper c then ascii_of_N (code c + 32) else c.

(** [String.prototype.toLowerCase] *)
Fixpoint toLowerCase (s : string) : string :=
  match s with
  | EmptyString => EmptyString
  | String c s' => String (lower_char c) (toLowerCase s')
  end.

(** White space and line terminators removed by [trim]. *)
Definition is_space (c : ascii) : bool :=
  let n := code c in
  ((9 <=? n) && (n <=? 13) || (n =? 32) || (n =? 160))%N.

Fixpoint trimStart (s : string) : string :=
  match s with
  | EmptyString => EmptyString
  | String c s' => if is_space c then trimStart s' else s
  end.

(** [trimEnd] drops the trailing run of white space: a character is kept
    when something that is kept follows it, or when it is not white space. *)
Fixpoint trimEnd (s : string) : string :=
  match s with
  | EmptyString => EmptyString
  | String c s' =>
      match trimEnd s' with
      | EmptyString => if is_space c then EmptyString else String c EmptyString
      | rest => String c rest
      end
  end.

(** [String.prototype.trim] *)
Definition trim (s : string) : string := trimEnd (trimStart s).

(** [String.prototype.includes]: [q] occurs in [s] as a contiguous run. *)
Fixpoint includes (s q : string) : bool :=
  prefix q s ||
  match s with
  | EmptyString => false
  | String _ s' => includes s' q
  end.

(** [Array.prototype.join] on an array of strings. *)
Definition join (sep : string) (l : list string) : string := concat sep l.

(** Truthiness of a string: only the empty string is falsy. *)
Definition truthy (s : string) : bool :=
  match s with EmptyString => false | _ => true end.

End JsString.

(* ------------------------------------------------------------------ *)
(** ** Data model *)

Module Temple.

(** Modelled from the spec: the [Temple] type is declared in
    [lib/data/temples], which is not part of the sources at hand.  The
    fields are those the component reads, typed as section 3 of the
    specification describes them. *)
Record t : Type := mk {
  name : string;
  city : string;
  country : string;
  description : string;
  region : string;
  tradition : string;
  environment : string;
  founded : Z;
  highlights : list string;
  features : list string;
  significanceScore : Q
}.

End Temple.

Inductive SortOption : Type := relevance | oldest | newest | significance.

Definition ALL_OPTION : string := "All".

(* ------------------------------------------------------------------ *)
(** ** Relevance scoring *)

Definition haystacks (temple : Temple.t) : string :=
  JsString.toLowerCase
    (JsString.join " "
       [ Temple.name temple;
         Temple.city temple;
         Temple.country temple;
         Temple.description temple;
         JsString.join " " (Temple.highlights temple);
         JsString.join " " (Temple.features temple) ]).

Definition nameMatch (temple : Temple.t) (normalizedSearch : string) : Q :=
  if JsString.includes (JsString.toLowerCase (Temple.name temple)) normalizedSearch
  then 25 else 0.

Definition cityMatch (temple : Temple.t) (normalizedSearch : string) : Q :=
  if JsString.includes (JsString.toLowerCase (Temple.city temple)) normalizedSearch
  then 15 else 0.

Definition featureMatch (temple : Temple.t) (normalizedSearch : string) : Q :=
  if existsb (fun feature =>
                JsString.includes (JsString.toLowerCase feature) normalizedSearch)
             (Temple.features temple)
  then 10 else 0.

Definition scoreTemple (temple : Temple.t) (normalizedSearch : string) : Q :=
  let base := Temple.significanceScore temple in
  if negb (JsString.truthy normalizedSearch) then base
  else if negb (JsString.includes (haystacks temple) normalizedSearch)
       then base * (7 # 10)
       else base + nameMatch temple normalizedSearch
                 + cityMatch temple normalizedSearch
                 + featureMatch temple normalizedSearch.

(* ------------------------------------------------------------------ *)
(** ** Filter predicate *)

Record FilterOptions : Type := {
  opt_region : string;
  opt_tradition : string;
  opt_feature : string;
  opt_environment : string
}.

(** [Array.prototype.includes] on an array of strings. *)
Definition array_includes (l : list string) (x : string) : bool :=
  existsb (String.eqb x) l.

Definition matchesFilters (temple : Temple.t) (options : FilterOptions) : bool :=
  let regionMatch :=
    (opt_region options =? ALL_OPTION)%string
    || (Temple.region temple =? opt_region options)%string in
  let traditionMatch :=
    (opt_tradition options =? ALL_OPTION)%string
    || (Temple.tradition temple =? opt_tradition options)%string in
  let environmentMatch :=
    (opt_environment options =? ALL_OPTION)%string
    || (Temple.environment temple =? opt_environment options)%string in
  let featureMatch :=
    (opt_feature options =? ALL_OPTION)%string
    || array_includes (Temple.features temple) (opt_feature options) in
  regionMatch && traditionMatch && environmentMatch && featureMatch.

(* ------------------------------------------------------------------ *)
(** ** Arrays, sets, maps and objects *)

Section ArraySort.

Context {A : Type}.

(** Comparator functions return a number; a result that is not positive
    leaves the first argument in front. *)
Variable compareFn : A -> A -> Q.

Fixpoint insert_sorted (x : A) (l : list A) : list A :=
  match l with
  | [] => [x]
  | y :: l' =>
      if Qle_bool (compareFn x y) 0 then x :: y :: l'
      else y :: insert_sorted x l'
  end.

(** [Array.prototype.sort] with a comparator.  The language requires the
    sort to be stable, so for a comparator that is a total preorder the
    result is the one of a stable insertion sort. *)
Definition Array_sort (l : list A) : list A :=
  fold_right insert_sorted [] l.

End ArraySort.

(** The comparison [Array.prototype.sort] uses when no comparator is given:
    strings by code units. *)
Definition defaultCompare (a b : string) : Q :=
  match String.compare a b with
  | Lt => -1
  | Eq => 0
  | Gt => 1
  end.

(** A [Set] of strings, as the list of its members in insertion order. *)
Module JsSet.

Definition t : Type := list string.

Definition has (s : t) (x : string) : bool := existsb (String.eqb x) s.

Definition add (s : t) (x : string) : t := if has s x then s else (s ++ [x])%list.

(** [new Set(iterable)] *)
Definition from (l : list string) : t := fold_left add l [].

Definition size (s : t) : nat := List.length s.

(** [Array.from(set)] and [set.values()] enumerate in insertion order. *)
Definition values (s : t) : list string := s.

End JsSet.

(** String-keyed stores of counts, as the list of their entries in the order
    the keys were first written. *)
Module JsMap.

Definition t : Type := list (string * Z).

Fixpoint get (m : t) (k : string) : option Z :=
  match m with
  | [] => None
  | (k', v) :: m' => if (k' =? k)%string then Some v else get m' k
  end.

(** Writing an existing key keeps its position; a new key goes last. *)
Fixpoint set (m : t) (k : string) (v : Z) : t :=
  match m with
  | [] => [(k, v)]
  | (k', v') :: m' =>
      if (k' =? k)%string then (k, v) :: m' else (k', v') :: set m' k v
  end.

(** [map.entries()] *)
Definition entries (m : t) : list (string * Z) := m.

End JsMap.

(** A plain object used as a record of counts, as the list of its own
    properties in creation order.  Reads and writes of own properties are
    those of [JsMap]; enumeration differs: own keys that are array indices
    come first, in ascending numeric order, and the other keys follow in
    creation order.

    An object literal also inherits from [Object.prototype]: reading one of
    the names in [inherited] on an object that has no such own property
    yields the inherited member, not [undefined].  [get] covers own
    properties only; statements that go through an object keep their keys
    outside [inherited]. *)
Module JsObject.

Definition t : Type := JsMap.t.

Definition inherited : list string :=
  [ "constructor"; "__proto__"; "hasOwnProperty"; "isPrototypeOf";
    "propertyIsEnumerable"; "toLocaleString"; "toString"; "valueOf";
    "__defineGetter__"; "__defineSetter__"; "__lookupGetter__";
    "__lookupSetter__" ].

Definition isInherited (k : string) : bool := existsb (String.eqb k) inherited.

Definition get : t -> string -> option Z := JsMap.get.
Definition set : t -> string -> Z -> t := JsMap.set.

Definition is_digit (c : ascii) : bool :=
  let n := JsString.code c in ((48 <=? n) && (n <=? 57))%N.

Fixpoint digits (s : string) (acc : N) : option N :=
  match s with
  | EmptyString => Some acc
  | String c s' =>
      if is_digit c then digits s' (10 * acc + (JsString.code c - 48))%N
      else None
  end.

(** The array index a key denotes, if any: a decimal numeral without
    leading zero whose value is below [2^32 - 1]. *)
Definition arrayIndex (k : string) : option N :=
  match k with
  | EmptyString => None
  | String c rest =>
      if (JsString.code c =? 48)%N && JsString.truthy rest then None
      else match digits k 0 with
           | Some n => if (n <? 4294967295)%N then Some n else None
           | None => None
           end
  end.

Definition isArrayIndex (k : string) : bool :=
  match arrayIndex k with Some _ => true | None => false end.

Definition indexOf (e : string * Z) : Z :=
  match arrayIndex (fst e) with Some n => Z.of_N n | None => 0 end.

(** [Object.entries] *)
Definition entries (o : t) : list (string * Z) :=
  (Array_sort (fun a b => inject_Z (indexOf a - indexOf b))
             (filter (fun e => isArrayIndex (fst e)) o)
  ++ filter (fun e => negb (isArrayIndex (fst e))) o)%list.

End JsObject.

(** [x ?? d] *)
Definition nullish {A : Type} (x : option A) (d : A) : A :=
  match x with Some v => v | None => d end.

(** Division of numbers; [None] when the quotient is not a finite number
    (division by zero gives [NaN] or an infinity). *)
Definition js_div (a b : Q) : option Q :=
  if Qeq_bool b 0 then None else Some (a / b)%Q.

(** [Math.round]: the nearest integer, halves towards positive infinity;
    what is not a finite number stays so. *)
Definition Math_round (x : option Q) : option Z :=
  option_map (fun q => Qfloor (q + (1 # 2))%Q) x.

(** [Number.isNaN] on the result of [Math_round]. *)
Definition Number_isNaN (x : option Z) : bool :=
  match x with None => true | Some _ => false end.

(* ------------------------------------------------------------------ *)
(** ** Facet lists *)

Section Facets.

Variable temples : list Temple.t.

Definition regions : list string :=
  ALL_OPTION :: JsSet.values (JsSet.from (map Temple.region temples)).

Definition traditions : list string :=
  ALL_OPTION :: JsSet.values (JsSet.from (map Temple.tradition temples)).

Definition environments : list string :=
  ALL_OPTION :: JsSet.values (JsSet.from (map Temple.environment temples)).

Definition features : list string :=
  ALL_OPTION ::
  Array_sort defaultCompare
    (JsSet.values
       (fold_left
          (fun acc temple => fold_left JsSet.add (Temple.features temple) acc)
          temples [])).

End Facets.

(* ------------------------------------------------------------------ *)
(** ** Query pipeline *)

Record QueryState : Type := {
  searchTerm : string;
  selectedRegion : string;
  selectedTradition : string;
  selectedEnvironment : string;
  selectedFeature : string;
  sortOrder : SortOption
}.

Record Ranked : Type := { temple : Temple.t; score : Q }.

Definition normalizedSearch (qs : QueryState) : string :=
  JsString.toLowerCase (JsString.trim (searchTerm qs)).

Definition selection (qs : QueryState) : FilterOptions :=
  {| opt_region := selectedRegion qs;
     opt_tradition := selectedTradition qs;
     opt_feature := selectedFeature qs;
     opt_environment := selectedEnvironment qs |}.

Definition compareRanked (order : SortOption) (a b : Ranked) : Q :=
  match order with
  | oldest => inject_Z (Temple.founded (temple a) - Temple.founded (temple b))
  | newest => inject_Z (Temple.founded (temple b) - Temple.founded (temple a))
  | significance =>
      Temple.significanceScore (temple b) - Temple.significanceScore (temple a)
  | relevance => score b - score a
  end.

(** The scored catalog, in catalog order, before filtering. *)
Definition scored (temples : list Temple.t) (qs : QueryState) : list Ranked :=
  map (fun t => {| temple := t; score := scoreTemple t (normalizedSearch qs) |})
      temples.

(** The scored temples that pass the filters, still in catalog order. *)
Definition retained (temples : list Temple.t) (qs : QueryState) : list Ranked :=
  filter (fun r => matchesFilters (temple r) (selection qs)) (scored temples qs).

Definition rankedTemples (temples : list Temple.t) (qs : QueryState) : list Ranked :=
  Array_sort (compareRanked (sortOrder qs)) (retained temples qs).

(* ------------------------------------------------------------------ *)
(** ** Insights *)

Record Insights : Type := {
  uniqueCountries : nat;
  mostCommonTradition : option string;
  averageFoundedYear : option Z;
  standoutFeature : option string
}.

Definition byCountDesc (a b : string * Z) : Q := inject_Z (snd b - snd a).

Definition topTraditions (ranked : list Ranked) : JsObject.t :=
  fold_left
    (fun acc r =>
       let k := Temple.tradition (temple r) in
       JsObject.set acc k (nullish (JsObject.get acc k) 0 + 1))
    ranked [].

Definition featureCounts (ranked : list Ranked) : JsMap.t :=
  fold_left
    (fun acc feature => JsMap.set acc feature (nullish (JsMap.get acc feature) 0 + 1))
    (flat_map (fun r => Temple.features (temple r)) ranked) [].

Definition insights (ranked : list Ranked) : Insights :=
  {| uniqueCountries :=
       JsSet.size (JsSet.from (map (fun r => Temple.country (temple r)) ranked));
     mostCommonTradition :=
       option_map fst
         (hd_error (Array_sort byCountDesc (JsObject.entries (topTraditions ranked))));
     averageFoundedYear :=
       Math_round
         (js_div
            (inject_Z (fold_left (fun acc r => acc + Temple.founded (temple r)) ranked 0))
            (inject_Z (Z.max (Z.of_nat (List.length ranked)) 1)));
     standoutFeature :=
       option_map fst
         (hd_error (Array_sort byCountDesc (JsMap.entries (featureCounts ranked)))) |}.

(** The same query state with another search term, or another sort order. *)
Definition withSearchTerm (qs : QueryState) (term : string) : QueryState :=
  {| searchTerm := term;
     selectedRegion := selectedRegion qs;
     selectedTradition := selectedTradition qs;
     selectedEnvironment := selectedEnvironment qs;
     selectedFeature := selectedFeature qs;
     sortOrder := sortOrder qs |}.

Definition withSortOrder (qs : QueryState) (order : SortOption) : QueryState :=
  {| searchTerm := searchTerm qs;
     selectedRegion := selectedRegion qs;
     selectedTradition := selectedTradition qs;
     selectedEnvironment := selectedEnvironment qs;
     selectedFeature := selectedFeature qs;
     sortOrder := order |}.

Definition foundedOf (r : Ranked) : Z := Temple.founded (temple r).

(** Comparators by an integer key, as [a.key - b.key] and [b.key - a.key]. *)
Definition ascending {A : Type} (f : A -> Z) (a b : A) : Q := inject_Z (f a - f b).
Definition descending {A : Type} (f : A -> Z) (a b : A) : Q := inject_Z (f b - f a).

(* ------------------------------------------------------------------ *)
(** ** Vocabulary of the statements *)






(** Number of occurrences of [v] in [values]. *)
Definition occurrences (values : list string) (v : string) : Z :=
  Z.of_nat (count_occ string_dec values v).

(** [v] has the highest number of occurrences in [values] and, among the
    values that have it, the earliest first occurrence. *)
Definition firstMostFrequent (values : list string) (v : string) : Prop :=
  exists p s,
    values = (p ++ v :: s)%list
    /\ (forall w, In w p -> occurrences values w < occurrences values v)
    /\ (forall w, In w s -> occurrences values w <= occurrences values v).

(** One more occurrence of [k] in a store of counts: the step both count
    accumulators of [insights] take. *)
Definition bump (acc : JsMap.t) (k : string) : JsMap.t :=
  JsMap.set acc k (nullish (JsMap.get acc k) 0 + 1).

(** The entries [(k, g k)] for the keys [ks], in the order of [ks]. *)
Definition table (g : string -> Z) (ks : list string) : list (string * Z) :=
  map (fun k => (k, g k)) ks.

(** The traditions and the features of a result list, in its order. *)
Definition traditionsOf (ranked : list Ranked) : list string :=
  map (fun r => Temple.tradition (temple r)) ranked.

Definition featuresOf (ranked : list Ranked) : list string :=
  flat_map (fun r => Temple.features (temple r)) ranked.

(* ------------------------------------------------------------------ *)
(** ** Sample data *)

(** The two-temple catalog of the specification's worked example. *)
Definition angkorWat : Temple.t :=
  {| Temple.name := "Angkor Wat";
     Temple.city := "Siem Reap";
     Temple.country := "Cambodia";
     Temple.description := "";
     Temple.region := "Southeast Asia";
     Temple.tradition := "Hindu-Buddhist";
     Temple.environment := "Jungle";
     Temple.founded := 1113;
     Temple.highlights := ["Bas-reliefs"];
     Temple.features := ["UNESCO Site"; "Sunrise Views"];
     Temple.significanceScore := 95 |}.

Definition borobudur : Temple.t :=
  {| Temple.name := "Borobudur";
     Temple.city := "Magelang";
     Temple.country := "Indonesia";
     Temple.description := "";
     Temple.region := "Southeast Asia";
     Temple.tradition := "Buddhist";
     Temple.environment := "Volcanic";
     Temple.founded := 800;
     Temple.highlights := ["Stupas"];
     Temple.features := ["UNESCO Site"];
     Temple.significanceScore := 90 |}.

(** A temple founded in the same year as [borobudur]. *)
Definition prambanan : Temple.t :=
  {| Temple.name := "Prambanan";
     Temple.city := "Yogyakarta";
     Temple.country := "Indonesia";
     Temple.description := "";
     Temple.region := "Southeast Asia";
     Temple.tradition := "Hindu";
     Temple.environment := "Plain";
     Temple.founded := 800;
     Temple.highlights := ["Reliefs"];
     Temple.features := ["UNESCO Site"];
     Temple.significanceScore := 90 |}.


(** A result entry for a temple of the given tradition. *)
Definition entryOfTradition (tradition : string) : Ranked :=
  {| temple :=
       {| Temple.name := "Shrine";
          Temple.city := "";
          Temple.country := "";
          Temple.description := "";
          Temple.region := "";
          Temple.tradition := tradition;
          Temple.environment := "";
          Temple.founded := 0;
          Temple.highlights := [];
          Temple.features := [];
          Temple.significanceScore := 1 |};
     score := 1 |}.

Definition browseAll (term : string) (order : SortOption) : QueryState :=
  {| searchTerm := term;
     selectedRegion := ALL_OPTION;
     selectedTradition := ALL_OPTION;
     selectedEnvironment := ALL_OPTION;
     selectedFeature := ALL_OPTION;
     sortOrder := order |}.

(** The points a matching piece contributes, for stating the score of a
    hit. *)
Definition bonus (hit : bool) (points : Q) : Q := if hit then points else 0.

(* ------------------------------------------------------------------ *)
(** ** Component state: setters, active filters, reset *)

(** The state setters the select boxes call. *)
Definition setSelectedRegion (qs : QueryState) (v : string) : QueryState :=
  {| searchTerm := searchTerm qs;
     selectedRegion := v;
     selectedTradition := selectedTradition qs;
     selectedEnvironment := selectedEnvironment qs;
     selectedFeature := selectedFeature qs;
     sortOrder := sortOrder qs |}.

Definition setSelectedTradition (qs : QueryState) (v : string) : QueryState :=
  {| searchTerm := searchTerm qs;
     selectedRegion := selectedRegion qs;
     selectedTradition := v;
     selectedEnvironment := selectedEnvironment qs;
     selectedFeature := selectedFeature qs;
     sortOrder := sortOrder qs |}.

Definition setSelectedEnvironment (qs : QueryState) (v : string) : QueryState :=
  {| searchTerm := searchTerm qs;
     selectedRegion := selectedRegion qs;
     selectedTradition := selectedTradition qs;
     selectedEnvironment := v;
     selectedFeature := selectedFeature qs;
     sortOrder := sortOrder qs |}.

Definition setSelectedFeature (qs : QueryState) (v : string) : QueryState :=
  {| searchTerm := searchTerm qs;
     selectedRegion := selectedRegion qs;
     selectedTradition := selectedTradition qs;
     selectedEnvironment := selectedEnvironment qs;
     selectedFeature := v;
     sortOrder := sortOrder qs |}.

Record ActiveFilter : Type := { label : string; value : string }.

(** [a !== b] on strings. *)
Definition strictNotEqual (a b : string) : bool := negb (a =? b)%string.

(** [Array.prototype.push] of one element. *)
Definition push {A : Type} (l : list A) (x : A) : list A := (l ++ [x])%list.

Definition activeFilters (qs : QueryState) : list ActiveFilter :=
  let filters := [] in
  let filters :=
    if strictNotEqual (selectedRegion qs) ALL_OPTION
    then push filters {| label := "Region"; value := selectedRegion qs |}
    else filters in
  let filters :=
    if strictNotEqual (selectedTradition qs) ALL_OPTION
    then push filters {| label := "Tradition"; value := selectedTradition qs |}
    else filters in
  let filters :=
    if strictNotEqual (selectedEnvironment qs) ALL_OPTION
    then push filters {| label := "Environment"; value := selectedEnvironment qs |}
    else filters in
  let filters :=
    if strictNotEqual (selectedFeature qs) ALL_OPTION
    then push filters {| label := "Highlight"; value := selectedFeature qs |}
    else filters in
  filters.

Definition clearFilters (qs : QueryState) : QueryState :=
  setSelectedFeature
    (setSelectedEnvironment
       (setSelectedTradition (setSelectedRegion qs ALL_OPTION) ALL_OPTION)
       ALL_OPTION)
    ALL_OPTION.

(** The [disabled] attribute of the reset button: [!activeFilters.length]. *)
Definition resetDisabled (qs : QueryState) : bool :=
  (List.length (activeFilters qs) =? 0)%nat.

(** The four selections paired with their labels, in the order
    [activeFilters] examines them. *)
Definition labelledSelections (qs : QueryState) : list ActiveFilter :=
  [ {| label := "Region"; value := selectedRegion qs |};
    {| label := "Tradition"; value := selectedTradition qs |};
    {| label := "Environment"; value := selectedEnvironment qs |};
    {| label := "Highlight"; value := selectedFeature qs |} ].

(** The quantity each sort order compares. *)
Definition sortKey (order : SortOption) (r : Ranked) : Q :=
  match order with
  | oldest | newest => inject_Z (Temple.founded (temple r))
  | significance => Temple.significanceScore (temple r)
  | relevance => score r
  end.

(** The sum [insights] divides by the number of results. *)
Definition foundedSum (ranked : list Ranked) : Z :=
  fold_left (fun acc r => acc + Temple.founded (temple r)) ranked 0.

(* ================================================================== *)
(** * Properties *)

(** ** Strings *)

Module JsStringFacts.
Import JsString.

Lemma truthy_false_iff (s : string) : truthy s = false <-> s = "".
Proof. destruct s; simpl; split; intros H; (reflexivity || discriminate). Qed.

Lemma truthy_true_iff (s : string) : truthy s = true <-> s <> "".
Proof.
  destruct s; simpl; split; intros H; try reflexivity; try discriminate.
  now contradiction H.
Qed.

Lemma toLowerCase_app (a b : string) :
  toLowerCase (a ++ b) = toLowerCase a ++ toLowerCase b.
Proof. induction a as [|c a IH]; simpl; [reflexivity | now rewrite IH]. Qed.

Lemma prefix_app (q a b : string) :
  prefix q a = true -> prefix q (a ++ b) = true.
Proof.
  revert a; induction q as [|c q IH]; intros a H.
  - now destruct (a ++ b).
  - destruct a as [|d a]; simpl in *; [discriminate|].
    destruct (ascii_dec c d); [now apply IH | discriminate].
Qed.

Lemma includes_cons (c : ascii) (s q : string) :
  includes (String c s) q = prefix q (String c s) || includes s q.
Proof. reflexivity. Qed.

Lemma includes_app_l (a b q : string) :
  includes a q = true -> includes (a ++ b) q = true.
Proof.
  induction a as [|c a IH]; intros H.
  - destruct q; [|discriminate]. destruct b; reflexivity.
  - rewrite includes_cons in H. apply orb_true_iff in H as [H|H].
    + apply (prefix_app _ _ b) in H.
      change (String c a ++ b) with (String c (a ++ b)) in *.
      rewrite includes_cons, H. reflexivity.
    + change (String c a ++ b) with (String c (a ++ b)).
      rewrite includes_cons, (IH H). apply orb_true_r.
Qed.

Lemma includes_app_r (a b q : string) :
  includes b q = true -> includes (a ++ b) q = true.
Proof.
  induction a as [|c a IH]; intros H; [exact H|].
  change (String c a ++ b) with (String c (a ++ b)).
  rewrite includes_cons, (IH H). apply orb_true_r.
Qed.

End JsStringFacts.

(** The name is the first piece of the searchable text, so a hit in the
    case-folded name is a hit in the searchable text. *)
Lemma name_hit_in_haystacks (T : Temple.t) (q : string) :
  JsString.includes (JsString.toLowerCase (Temple.name T)) q = true ->
  JsString.includes (haystacks T) q = true.
Proof.
  intros H. unfold haystacks, JsString.join. cbn [concat].
  rewrite JsStringFacts.toLowerCase_app.
  now apply JsStringFacts.includes_app_l.
Qed.

(** ** Sorting *)

Section ArraySortFacts.

Context {A : Type} (cmp : A -> A -> Q).

Lemma insert_sorted_perm (x : A) (l : list A) :
  Permutation (insert_sorted cmp x l) (x :: l).
Proof.
  induction l as [|y l IH]; simpl; [reflexivity|].
  destruct (Qle_bool (cmp x y) 0); [reflexivity|].
  rewrite IH. apply perm_swap.
Qed.

Lemma Array_sort_perm (l : list A) : Permutation (Array_sort cmp l) l.
Proof.
  induction l as [|x l IH]; simpl; [reflexivity|].
  rewrite insert_sorted_perm. now constructor.
Qed.

Lemma Array_sort_In (l : list A) (x : A) : In x (Array_sort cmp l) <-> In x l.
Proof.
  split; apply Permutation_in;
    [apply Array_sort_perm | apply Permutation_sym, Array_sort_perm].
Qed.

End ArraySortFacts.

(** ** Membership in the pipeline *)

Lemma In_retained (temples : list Temple.t) (qs : QueryState) (r : Ranked) :
  In r (retained temples qs) <->
  In (temple r) temples
  /\ score r = scoreTemple (temple r) (normalizedSearch qs)
  /\ matchesFilters (temple r) (selection qs) = true.
Proof.
  unfold retained, scored. rewrite filter_In, in_map_iff. split.
  - intros [[t [<- Ht]] Hm]. simpl in *. auto.
  - intros (Ht & Hs & Hm). split; [|exact Hm].
    exists (temple r). split; [|exact Ht].
    destruct r as [t s]; simpl in *. now subst s.
Qed.

Lemma In_rankedTemples (temples : list Temple.t) (qs : QueryState) (r : Ranked) :
  In r (rankedTemples temples qs) <-> In r (retained temples qs).
Proof. apply Array_sort_In. Qed.

(* ------------------------------------------------------------------ *)
(** ** Scoring *)

(** C9: a query whose trimmed, case-folded form is empty leaves the score at
    the temple's [significanceScore]. *)
Theorem score_empty_query (T : Temple.t) (query : string) :
  JsString.toLowerCase (JsString.trim query) = "" ->
  scoreTemple T (JsString.toLowerCase (JsString.trim query))
  = Temple.significanceScore T.
Proof.
  intros ->. reflexivity.
Qed.

(** C2: when the normalized query is not empty and does not occur in the
    temple's searchable text, the score is [significanceScore * 0.7]; the
    temple is still listed, with that score, whenever the catalog holds it and
    it passes the filters. *)
Theorem score_miss (T : Temple.t) (q : string) :
  q <> "" ->
  JsString.includes (haystacks T) q = false ->
  scoreTemple T q = (Temple.significanceScore T * (7 # 10))%Q
  /\ forall (temples : list Temple.t) (qs : QueryState),
       normalizedSearch qs = q ->
       In T temples ->
       matchesFilters T (selection qs) = true ->
       In {| temple := T; score := (Temple.significanceScore T * (7 # 10))%Q |}
          (rankedTemples temples qs).
Proof.
  intros Hq Hmiss.
  assert (Hs : scoreTemple T q = (Temple.significanceScore T * (7 # 10))%Q).
  { unfold scoreTemple.
    apply JsStringFacts.truthy_true_iff in Hq. now rewrite Hq, Hmiss. }
  split; [exact Hs|].
  intros temples qs Hn Hin Hm.
  apply In_rankedTemples, In_retained. simpl.
  repeat split; [exact Hin | now rewrite Hn, Hs | exact Hm].
Qed.

(** C3: when the non-empty normalized query occurs in the searchable text, the
    score is [significanceScore] plus 25 for a hit in the case-folded name,
    plus 15 for a hit in the case-folded city, plus 10 for a hit in at least
    one case-folded feature; the three together give 50; and a hit in the
    name, which is always a hit in the searchable text, guarantees at least
    25. *)
Theorem score_hit (T : Temple.t) (q : string) :
  q <> "" ->
  let base := Temple.significanceScore T in
  let inName := JsString.includes (JsString.toLowerCase (Temple.name T)) q in
  let inCity := JsString.includes (JsString.toLowerCase (Temple.city T)) q in
  let inFeature :=
    existsb (fun f => JsString.includes (JsString.toLowerCase f) q)
            (Temple.features T) in
  (JsString.includes (haystacks T) q = true ->
   scoreTemple T q = (base + bonus inName 25 + bonus inCity 15 + bonus inFeature 10)%Q
   /\ (inName = true -> inCity = true ->
       (exists f, In f (Temple.features T)
                  /\ JsString.includes (JsString.toLowerCase f) q = true) ->
       (scoreTemple T q == base + 50)%Q))
  /\ (inName = true -> (base + 25 <= scoreTemple T q)%Q).
Proof.
  intros Hq base inName inCity inFeature.
  assert (Hs : JsString.includes (haystacks T) q = true ->
               scoreTemple T q
               = (base + bonus inName 25 + bonus inCity 15 + bonus inFeature 10)%Q).
  { intros Hhit. unfold scoreTemple.
    apply JsStringFacts.truthy_true_iff in Hq. now rewrite Hq, Hhit. }
  split.
  - intros Hhit. split; [exact (Hs Hhit)|].
    intros Hn Hc Hf.
    assert (Hf' : inFeature = true) by (apply existsb_exists; exact Hf).
    rewrite (Hs Hhit), Hn, Hc, Hf'. unfold bonus. ring.
  - intros Hn. rewrite (Hs (name_hit_in_haystacks T q Hn)), Hn. unfold bonus.
    destruct inCity, inFeature; lra.
Qed.

Lemma score_hit_witness :
  "r" <> ""
  /\ JsString.includes (haystacks angkorWat) "r" = true
  /\ scoreTemple angkorWat "r" = (95 + 25 + 15 + 10)%Q
  /\ (scoreTemple angkorWat "r" == 95 + 50)%Q
  /\ (95 + 25 <= scoreTemple angkorWat "r")%Q.
Proof.
  assert (Hq : "r" <> "") by discriminate.
  destruct (score_hit angkorWat "r" Hq) as [Hhit Hname].
  destruct (Hhit eq_refl) as [Heq Hall].
  split; [exact Hq|]. split; [reflexivity|]. split; [exact Heq|]. split.
  - apply Hall; [reflexivity | reflexivity |].
    exists "Sunrise Views". split; [right; now left | reflexivity].
  - apply Hname. reflexivity.
Defined.

Lemma score_empty_query_witness :
  JsString.toLowerCase (JsString.trim "   ") = ""
  /\ scoreTemple angkorWat (JsString.toLowerCase (JsString.trim "   ")) = 95%Q.
Proof.
  split; [reflexivity|].
  exact (score_empty_query angkorWat "   " eq_refl).
Defined.

Lemma score_miss_witness :
  "zen" <> ""
  /\ JsString.includes (haystacks angkorWat) "zen" = false
  /\ scoreTemple angkorWat "zen" = (95 * (7 # 10))%Q
  /\ In {| temple := angkorWat; score := (95 * (7 # 10))%Q |}
        (rankedTemples [borobudur; angkorWat] (browseAll " Zen " newest)).
Proof.
  assert (Hq : "zen" <> "") by discriminate.
  destruct (score_miss angkorWat "zen" Hq eq_refl) as [Hs Hlisted].
  split; [exact Hq|]. split; [reflexivity|]. split; [exact Hs|].
  apply Hlisted; [reflexivity | right; now left | reflexivity].
Defined.

(* ------------------------------------------------------------------ *)
(** ** Filtering *)

(** C5: a temple passes exactly when each of the four selections is ["All"]
    or agrees with the temple (equality for region, tradition and
    environment, membership for feature).  Each conjunct reads the selection
    of its own dimension only. *)
Theorem matchesFilters_iff (T : Temple.t) (o : FilterOptions) :
  matchesFilters T o = true <->
  (opt_region o = ALL_OPTION \/ Temple.region T = opt_region o)
  /\ (opt_tradition o = ALL_OPTION \/ Temple.tradition T = opt_tradition o)
  /\ (opt_environment o = ALL_OPTION \/ Temple.environment T = opt_environment o)
  /\ (opt_feature o = ALL_OPTION \/ In (opt_feature o) (Temple.features T)).
Proof.
  unfold matchesFilters, array_includes.
  rewrite !andb_true_iff, !orb_true_iff, !String.eqb_eq, existsb_exists.
  split.
  - intros [[[Hr Ht] He] Hf]. repeat split; try assumption.
    destruct Hf as [Hf|[x [Hin Hx]]]; [now left|right].
    apply String.eqb_eq in Hx. now subst x.
  - intros (Hr & Ht & He & Hf). repeat split; try assumption.
    destruct Hf as [Hf|Hin]; [now left|right].
    exists (opt_feature o). split; [exact Hin | apply String.eqb_refl].
Qed.

(* ------------------------------------------------------------------ *)
(** ** The pipeline: membership *)

Lemma temples_of_retained (temples : list Temple.t) (qs : QueryState) :
  map temple (retained temples qs)
  = filter (fun t => matchesFilters t (selection qs)) temples.
Proof.
  unfold retained, scored.
  induction temples as [|t l IH]; simpl; [reflexivity|].
  destruct (matchesFilters t (selection qs)); simpl; now rewrite IH.
Qed.

(** C7: the temples listed are exactly the temples of the catalog that pass
    the filter predicate, and replacing the search term leaves the listed
    temples the same up to order. *)
Theorem listed_iff_matches (temples : list Temple.t) (qs : QueryState) :
  (forall T : Temple.t,
      In T (map temple (rankedTemples temples qs)) <->
      In T temples /\ matchesFilters T (selection qs) = true)
  /\ forall term : string,
      Permutation (map temple (rankedTemples temples qs))
                  (map temple (rankedTemples temples (withSearchTerm qs term))).
Proof.
  assert (P : forall q : QueryState,
             Permutation (map temple (rankedTemples temples q))
                         (filter (fun t => matchesFilters t (selection q)) temples)).
  { intros q. rewrite <- temples_of_retained.
    apply Permutation_map, Array_sort_perm. }
  split.
  - intros T.
    rewrite <- (filter_In (fun t => matchesFilters t (selection qs)) T temples).
    split; apply Permutation_in; [apply P | apply Permutation_sym, P].
  - intros term. rewrite (P qs), (P (withSearchTerm qs term)). reflexivity.
Qed.

(* ------------------------------------------------------------------ *)
(** ** The pipeline: order *)

Section Stability.

Context {A : Type} (cmp : A -> A -> Q).

(** A class of elements that the comparator never orders strictly. *)
Variable p : A -> bool.
Hypothesis p_ties :
  forall x y, p x = true -> p y = true -> Qle_bool (cmp x y) 0 = true.

Lemma insert_sorted_filter (x : A) (l : list A) :
  filter p (insert_sorted cmp x l) = filter p (x :: l).
Proof.
  induction l as [|y l IH]; [reflexivity|].
  cbn [insert_sorted].
  destruct (Qle_bool (cmp x y) 0) eqn:E; [reflexivity|].
  cbn [filter] in *. rewrite IH.
  destruct (p x) eqn:Px, (p y) eqn:Py; try reflexivity.
  rewrite (p_ties x y Px Py) in E. discriminate.
Qed.

(** Sorting keeps the elements of such a class in their input order. *)
Lemma Array_sort_filter (l : list A) :
  filter p (Array_sort cmp l) = filter p l.
Proof.
  induction l as [|x l IH]; [reflexivity|].
  cbn [Array_sort fold_right]. fold (Array_sort cmp l).
  rewrite insert_sorted_filter. cbn [filter]. now rewrite IH.
Qed.

End Stability.

(** C6: under [relevance], the entries of the result that share a score are
    the entries of the scored catalog that pass the filters and have that
    score, in catalog order. *)
Theorem relevance_sort_stable
    (temples : list Temple.t) (qs : QueryState) (s : Q) :
  sortOrder qs = relevance ->
  filter (fun r => Qeq_bool (score r) s) (rankedTemples temples qs)
  = filter (fun r => Qeq_bool (score r) s)
      (filter (fun r => matchesFilters (temple r) (selection qs))
              (scored temples qs)).
Proof.
  intros Hrel. unfold rankedTemples. rewrite Hrel.
  apply Array_sort_filter.
  intros x y Hx Hy. apply Qeq_bool_iff in Hx, Hy.
  apply Qle_bool_iff. cbn [compareRanked]. rewrite Hx, Hy. lra.
Qed.

Lemma relevance_sort_stable_witness :
  sortOrder (browseAll "" relevance) = relevance
  /\ filter (fun r => Qeq_bool (score r) 90)
            (rankedTemples [borobudur; angkorWat; prambanan] (browseAll "" relevance))
     = [ {| temple := borobudur; score := 90 |};
         {| temple := prambanan; score := 90 |} ].
Proof.
  split; [reflexivity|].
  rewrite (relevance_sort_stable [borobudur; angkorWat; prambanan]
             (browseAll "" relevance) 90 eq_refl).
  reflexivity.
Defined.

Section SortByKey.

Context {A : Type} (f : A -> Z).

Lemma Qle_bool_inject_Z (z : Z) : Qle_bool (inject_Z z) 0 = (z <=? 0).
Proof. unfold Qle_bool, inject_Z. simpl. now rewrite Z.mul_1_r. Qed.

Lemma insert_ascending (x y : A) (l : list A) :
  insert_sorted (ascending f) x (y :: l)
  = if f x <=? f y then x :: y :: l else y :: insert_sorted (ascending f) x l.
Proof.
  cbn [insert_sorted]. unfold ascending at 1. rewrite Qle_bool_inject_Z.
  destruct (f x <=? f y) eqn:E, (f x - f y <=? 0) eqn:E'; try reflexivity; lia.
Qed.

Lemma insert_descending (x y : A) (l : list A) :
  insert_sorted (descending f) x (y :: l)
  = if f y <=? f x then x :: y :: l else y :: insert_sorted (descending f) x l.
Proof.
  cbn [insert_sorted]. unfold descending at 1. rewrite Qle_bool_inject_Z.
  destruct (f y <=? f x) eqn:E, (f y - f x <=? 0) eqn:E'; try reflexivity; lia.
Qed.

Lemma insert_descending_last (x : A) (l : list A) :
  Forall (fun z => f x < f z) l ->
  insert_sorted (descending f) x l = (l ++ [x])%list.
Proof.
  induction 1 as [|y l Hy _ IH]; [reflexivity|].
  rewrite insert_descending.
  destruct (f y <=? f x) eqn:E; [lia|]. now rewrite IH.
Qed.

Lemma insert_descending_snoc (x y : A) (l : list A) :
  f y < f x ->
  insert_sorted (descending f) x (l ++ [y])
  = (insert_sorted (descending f) x l ++ [y])%list.
Proof.
  intros Hlt. induction l as [|z l IH].
  - cbn [app]. rewrite insert_descending.
    destruct (f y <=? f x) eqn:E; [reflexivity | lia].
  - cbn [app]. rewrite !insert_descending.
    destruct (f z <=? f x); [reflexivity|]. now rewrite IH.
Qed.

Lemma insert_ascending_sorted (x : A) (l : list A) :
  StronglySorted (fun a b => f a <= f b) l ->
  StronglySorted (fun a b => f a <= f b) (insert_sorted (ascending f) x l).
Proof.
  induction 1 as [|y l Hs IH Hy]; [repeat constructor|].
  rewrite insert_ascending. destruct (f x <=? f y) eqn:E.
  - constructor; [now constructor|].
    constructor; [lia|].
    eapply Forall_impl; [|exact Hy]. cbn. intros; lia.
  - constructor; [exact IH|].
    apply Forall_forall. intros z Hz.
    apply (Permutation_in _ (insert_sorted_perm _ x l)) in Hz.
    destruct Hz as [<-|Hz]; [lia|].
    rewrite Forall_forall in Hy. now apply Hy.
Qed.

Lemma sort_ascending_sorted (l : list A) :
  StronglySorted (fun a b => f a <= f b) (Array_sort (ascending f) l).
Proof.
  induction l as [|x l IH]; [constructor|].
  apply insert_ascending_sorted, IH.
Qed.

Lemma rev_insert_ascending (x : A) (l : list A) :
  StronglySorted (fun a b => f a <= f b) l ->
  Forall (fun z => f z <> f x) l ->
  rev (insert_sorted (ascending f) x l) = insert_sorted (descending f) x (rev l).
Proof.
  induction 1 as [|y l Hs IH Hy]; intros Hne; [reflexivity|].
  inversion Hne as [|? ? Hyx Hne']; subst.
  rewrite insert_ascending. destruct (f x <=? f y) eqn:E.
  - symmetry. apply (insert_descending_last x (rev (y :: l))).
    apply Forall_rev. constructor; [lia|].
    eapply Forall_impl; [|exact Hy]. cbn. intros; lia.
  - cbn [rev]. rewrite (IH Hne').
    symmetry. apply insert_descending_snoc. lia.
Qed.

(** With pairwise distinct keys, the (ascending f) sort read backwards is the
    (descending f) sort. *)
Lemma rev_sort_ascending (l : list A) :
  NoDup (map f l) ->
  rev (Array_sort (ascending f) l) = Array_sort (descending f) l.
Proof.
  induction l as [|x l IH]; intros Hnd; [reflexivity|].
  cbn [map] in Hnd. apply NoDup_cons_iff in Hnd as [Hx Hnd].
  cbn [Array_sort fold_right].
  fold (Array_sort (ascending f) l). fold (Array_sort (descending f) l).
  rewrite rev_insert_ascending.
  - now rewrite (IH Hnd).
  - apply sort_ascending_sorted.
  - apply Forall_forall. intros z Hz E. apply Hx.
    rewrite <- E. apply in_map. now apply Array_sort_In in Hz.
Qed.

End SortByKey.

Lemma retained_withSortOrder
    (temples : list Temple.t) (qs : QueryState) (order : SortOption) :
  retained temples (withSortOrder qs order) = retained temples qs.
Proof. reflexivity. Qed.

(** C4, as the code has it: the result under [oldest], read backwards, has
    the same elements as the result under [newest]; the two sequences are
    equal when no two retained temples share a founding year. *)
Theorem oldest_reversed_is_newest (temples : list Temple.t) (qs : QueryState) :
  Permutation (rev (rankedTemples temples (withSortOrder qs oldest)))
              (rankedTemples temples (withSortOrder qs newest))
  /\ (NoDup (map foundedOf (retained temples qs)) ->
      rev (rankedTemples temples (withSortOrder qs oldest))
      = rankedTemples temples (withSortOrder qs newest)).
Proof.
  unfold rankedTemples. rewrite !retained_withSortOrder. cbn [sortOrder withSortOrder].
  split.
  - rewrite <- Permutation_rev, !Array_sort_perm. reflexivity.
  - intros Hnd. apply (rev_sort_ascending foundedOf _ Hnd).
Qed.

Lemma oldest_reversed_is_newest_witness :
  NoDup (map foundedOf (retained [angkorWat; borobudur] (browseAll "wat" relevance)))
  /\ rev (rankedTemples [angkorWat; borobudur]
            (withSortOrder (browseAll "wat" relevance) oldest))
     = rankedTemples [angkorWat; borobudur]
            (withSortOrder (browseAll "wat" relevance) newest).
Proof.
  assert (Hnd : NoDup (map foundedOf
                         (retained [angkorWat; borobudur] (browseAll "wat" relevance)))).
  { repeat constructor; simpl; intuition discriminate. }
  split; [exact Hnd|].
  exact (proj2 (oldest_reversed_is_newest [angkorWat; borobudur]
                  (browseAll "wat" relevance)) Hnd).
Defined.

(** C4 as stated fails when two retained temples were founded in the same
    year: both sorts keep them in catalog order, so reversing one does not give
    the other. *)
Lemma oldest_reversed_differs_on_ties :
  rev (rankedTemples [borobudur; prambanan] (browseAll "" oldest))
  <> rankedTemples [borobudur; prambanan] (browseAll "" newest).
Proof.
  intros H.
  apply (f_equal (map (fun r => Temple.city (temple r)))) in H.
  vm_compute in H. discriminate H.
Qed.

(* ------------------------------------------------------------------ *)
(** ** Insights of an empty result *)

(** C1 on the code: for the empty result list the dominant tradition and the
    standout feature are [undefined] and the country count is 0, as the claim
    says; the average founding year, however, is the number 0 (the sum 0
    divided by [Math.max(0, 1)]) and not the "unavailable" value, so the
    [Number.isNaN] test of the insight card never fires. *)
Theorem insights_empty :
  insights []
  = {| uniqueCountries := 0;
       mostCommonTradition := None;
       averageFoundedYear := Some 0;
       standoutFeature := None |}
  /\ Number_isNaN (averageFoundedYear (insights [])) = false.
Proof. split; reflexivity. Qed.

(** Hence the four-part statement of C1 does not hold of the code. *)
Lemma insights_empty_average_not_unavailable :
  ~ (mostCommonTradition (insights []) = None
     /\ averageFoundedYear (insights []) = None
     /\ standoutFeature (insights []) = None
     /\ uniqueCountries (insights []) = 0%nat).
Proof.
  intros (_ & Havg & _). vm_compute in Havg. discriminate Havg.
Qed.

(* ------------------------------------------------------------------ *)
(** ** Sets in insertion order *)

Module JsSetFacts.
Import JsSet.

Lemma has_In (s : t) (x : string) : has s x = true <-> In x s.
Proof.
  unfold has. rewrite existsb_exists. split.
  - intros [y [Hy E]]. apply String.eqb_eq in E. now subst.
  - intros H. exists x. split; [exact H | apply String.eqb_refl].
Qed.

Lemma has_not_In (s : t) (x : string) : has s x = false <-> ~ In x s.
Proof.
  rewrite <- has_In. destruct (has s x); split; intros H;
    try reflexivity; try discriminate; try (intros E; discriminate).
  now contradiction H.
Qed.

(** Folding [add] over a list extends the set at its end, with members
    that were not there before. *)
Lemma fold_add (l : list string) (acc : t) :
  exists rest,
    fold_left add l acc = (acc ++ rest)%list
    /\ (forall v, In v rest <-> In v l /\ ~ In v acc)
    /\ (NoDup acc -> NoDup (acc ++ rest)%list).
Proof.
  revert acc. induction l as [|x l IH]; intros acc.
  - exists []. rewrite app_nil_r. repeat split; simpl; tauto.
  - cbn [fold_left]. unfold add at 2. destruct (has acc x) eqn:E.
    + apply has_In in E.
      destruct (IH acc) as (rest & Heq & Hin & Hnd).
      exists rest. split; [exact Heq|]. split; [|exact Hnd].
      intros v. rewrite Hin. simpl. split; [tauto|].
      intros [[-> | Hv] Hn]; [contradiction | tauto].
    + apply has_not_In in E.
      destruct (IH (acc ++ [x])%list) as (rest & Heq & Hin & Hnd).
      exists (x :: rest). rewrite Heq, <- app_assoc. cbn [app].
      split; [reflexivity|]. split.
      * intros v. cbn [In]. rewrite Hin, in_app_iff. cbn [In].
        destruct (string_dec x v) as [->|Hne]; [tauto|]. tauto.
      * intros Hacc.
        change (acc ++ x :: rest)%list with (acc ++ [x] ++ rest)%list.
        rewrite app_assoc. apply Hnd.
        apply NoDup_app; [exact Hacc | repeat constructor; simpl; tauto |].
        intros y Hy [<- | []]. contradiction.
Qed.

Lemma from_In (l : list string) (v : string) : In v (from l) <-> In v l.
Proof.
  unfold from. destruct (fold_add l []) as (rest & -> & Hin & _).
  cbn [app]. rewrite Hin. simpl. tauto.
Qed.

Lemma from_NoDup (l : list string) : NoDup (from l).
Proof.
  unfold from. destruct (fold_add l []) as (rest & -> & _ & Hnd).
  apply Hnd. constructor.
Qed.

(** [from] of a list extends [from] of each of its prefixes with values the
    prefix does not hold. *)
Lemma from_app (l1 l2 : list string) :
  exists rest,
    from (l1 ++ l2) = (from l1 ++ rest)%list
    /\ forall v, In v rest -> ~ In v l1.
Proof.
  unfold from at 1. rewrite fold_left_app. fold (from l1).
  destruct (fold_add l2 (from l1)) as (rest & Heq & Hin & _).
  exists rest. split; [exact Heq|].
  intros v Hv. apply Hin in Hv as [_ Hn]. now rewrite from_In in Hn.
Qed.

Lemma from_snoc (l : list string) (x : string) :
  from (l ++ [x]) = add (from l) x.
Proof. unfold from. now rewrite fold_left_app. Qed.

End JsSetFacts.

(** ** Splitting a list at an element *)

Local Open Scope list_scope.

Section Splits.

Context {A : Type} (dec : forall x y : A, {x = y} + {x <> y}).

Lemma first_occurrence (v : A) (l : list A) :
  In v l -> exists p s, l = p ++ v :: s /\ ~ In v p.
Proof.
  induction l as [|x l IH]; intros H; [destruct H|].
  destruct (dec x v) as [->|Hne].
  - exists [], l. split; [reflexivity | intros []].
  - destruct H as [H|H]; [contradiction|].
    destruct (IH H) as (p & s & -> & Hp).
    exists (x :: p), s. split; [reflexivity|].
    intros [E|E]; [contradiction | now apply Hp].
Qed.

Lemma split_unique (v : A) (a a' b b' : list A) :
  ~ In v a -> ~ In v a' ->
  a ++ v :: b = a' ++ v :: b' -> a = a' /\ b = b'.
Proof.
  revert a'. induction a as [|x a IH]; intros [|x' a'] Ha Ha' E;
    cbn [app] in E.
  - injection E as ->. now split.
  - injection E as -> _. contradiction Ha'. now left.
  - injection E as -> _. contradiction Ha. now left.
  - injection E as -> E.
    destruct (IH a') as [-> ->]; [ | | exact E | now split].
    + intros H. apply Ha. now right.
    + intros H. apply Ha'. now right.
Qed.

End Splits.

(** ** Facet lists *)



Lemma fold_features (g : Temple.t -> list string)
    (temples : list Temple.t) (acc : JsSet.t) :
  fold_left (fun acc temple => fold_left JsSet.add (g temple) acc) temples acc
  = fold_left JsSet.add (flat_map g temples) acc.
Proof.
  revert acc. induction temples as [|t l IH]; intros acc; [reflexivity|].
  cbn [fold_left flat_map]. now rewrite fold_left_app, IH.
Qed.






(* ------------------------------------------------------------------ *)
(** ** Counting occurrences *)

Module CountFacts.

Lemma get_table (g : string -> Z) (ks : list string) (x : string) :
  JsMap.get (table g ks) x = if JsSet.has ks x then Some (g x) else None.
Proof.
  induction ks as [|k ks IH]; [reflexivity|].
  cbn [table map JsMap.get]. fold (table g ks). rewrite IH.
  unfold JsSet.has. cbn [existsb]. rewrite (String.eqb_sym x k).
  destruct (String.eqb_spec k x) as [->|]; reflexivity.
Qed.

Lemma set_table_fresh (g : string -> Z) (ks : list string) (x : string) (v : Z) :
  ~ In x ks -> JsMap.set (table g ks) x v = table g ks ++ [(x, v)].
Proof.
  induction ks as [|k ks IH]; intros Hx; [reflexivity|].
  cbn [table map JsMap.set app]. fold (table g ks).
  destruct (String.eqb_spec k x) as [->|_].
  - contradiction Hx. now left.
  - rewrite IH; [reflexivity|]. intros H. apply Hx. now right.
Qed.

Lemma table_ext_in (g h : string -> Z) (ks : list string) :
  (forall k, In k ks -> g k = h k) -> table g ks = table h ks.
Proof.
  intros H. apply map_ext_in. intros k Hk. now rewrite (H k Hk).
Qed.

Lemma set_table_member (g : string -> Z) (ks : list string) (x : string) (v : Z) :
  NoDup ks -> In x ks ->
  JsMap.set (table g ks) x v
  = table (fun k => if (k =? x)%string then v else g k) ks.
Proof.
  induction 1 as [|k ks Hk Hnd IH]; intros Hx; [destruct Hx|].
  cbn [table map JsMap.set].
  fold (table g ks). fold (table (fun k => if (k =? x)%string then v else g k) ks).
  destruct (String.eqb_spec k x) as [->|Hne].
  - f_equal. apply table_ext_in. intros k' Hk'.
    destruct (String.eqb_spec k' x) as [->|]; [contradiction | reflexivity].
  - destruct Hx as [Hx|Hx]; [contradiction|]. now rewrite (IH Hx).
Qed.

Lemma occurrences_snoc (l : list string) (x k : string) :
  occurrences (l ++ [x]) k
  = occurrences l k + (if (k =? x)%string then 1 else 0).
Proof.
  unfold occurrences. rewrite count_occ_app. cbn [count_occ].
  destruct (string_dec x k) as [->|Hne].
  - rewrite String.eqb_refl. lia.
  - destruct (String.eqb_spec k x) as [->|_]; [contradiction | lia].
Qed.

Lemma occurrences_absent (l : list string) (x : string) :
  ~ In x l -> occurrences l x = 0.
Proof.
  intros H. unfold occurrences.
  now rewrite (proj1 (count_occ_not_In string_dec l x) H).
Qed.

(** The accumulator holds, in first-seen order, each distinct value with its
    number of occurrences. *)
Lemma fold_bump (values : list string) :
  fold_left bump values [] = table (occurrences values) (JsSet.from values).
Proof.
  induction values as [|x l IH] using rev_ind; [reflexivity|].
  rewrite fold_left_app, IH, JsSetFacts.from_snoc.
  cbn [fold_left]. unfold bump, JsSet.add. rewrite get_table.
  destruct (JsSet.has (JsSet.from l) x) eqn:E; cbn [nullish].
  - apply JsSetFacts.has_In in E.
    rewrite set_table_member by (apply JsSetFacts.from_NoDup || exact E).
    apply table_ext_in. intros k _. rewrite occurrences_snoc.
    destruct (String.eqb_spec k x) as [->|_]; lia.
  - apply JsSetFacts.has_not_In in E.
    rewrite set_table_fresh by exact E.
    unfold table. rewrite map_app. cbn [map]. f_equal.
    + apply map_ext_in. intros k Hk. rewrite occurrences_snoc.
      destruct (String.eqb_spec k x) as [->|_]; [contradiction|].
      now rewrite Z.add_0_r.
    + rewrite occurrences_snoc, String.eqb_refl, occurrences_absent; [reflexivity|].
      now rewrite <- JsSetFacts.from_In.
Qed.

Lemma topTraditions_fold (ranked : list Ranked) :
  topTraditions ranked = fold_left bump (traditionsOf ranked) [].
Proof.
  unfold topTraditions, traditionsOf. generalize (@nil (string * Z)).
  induction ranked as [|r l IH]; intros acc; [reflexivity|].
  cbn [fold_left map]. apply IH.
Qed.

Lemma featureCounts_fold (ranked : list Ranked) :
  featureCounts ranked = fold_left bump (featuresOf ranked) [].
Proof. reflexivity. Qed.

(** Without array-index keys, [Object.entries] enumerates in creation
    order. *)
Lemma entries_creation_order (o : JsObject.t) :
  (forall e, In e o -> JsObject.isArrayIndex (fst e) = false) ->
  JsObject.entries o = o.
Proof.
  intros H. unfold JsObject.entries.
  induction o as [|e o IH]; [reflexivity|].
  cbn [filter]. rewrite (H e (or_introl eq_refl)). cbn [negb].
  assert (Ho : forall e', In e' o -> JsObject.isArrayIndex (fst e') = false)
    by (intros e' He'; apply H; now right).
  specialize (IH Ho).
  destruct (filter (fun e0 => JsObject.isArrayIndex (fst e0)) o) as [|i rest] eqn:E.
  - cbn [Array_sort fold_right app] in *. now rewrite IH.
  - exfalso.
    assert (Hi : In i (filter (fun e0 => JsObject.isArrayIndex (fst e0)) o))
      by (rewrite E; now left).
    apply filter_In in Hi as [Hi1 Hi2]. rewrite (Ho i Hi1) in Hi2. discriminate.
Qed.

End CountFacts.

(** ** The head of a descending sort *)

Section SortHead.

Context {A : Type} (f : A -> Z).

(** The first element of the descending sort has the greatest key, and
    stands in the input before every other element with that key. *)
Lemma hd_sort_descending (l : list A) (h : A) (t : list A) :
  Array_sort (descending f) l = h :: t ->
  exists p s,
    l = p ++ h :: s
    /\ Forall (fun y => f y < f h) p
    /\ Forall (fun y => f y <= f h) s.
Proof.
  revert h t. induction l as [|x l IH]; intros h t E; [discriminate|].
  cbn [Array_sort fold_right] in E. fold (Array_sort (descending f) l) in E.
  destruct (Array_sort (descending f) l) as [|h' t'] eqn:S.
  - assert (l = []) as ->.
    { apply Permutation_nil. rewrite <- S. apply Array_sort_perm. }
    cbn in E. injection E as <- <-.
    exists [], []. repeat split; constructor.
  - destruct (IH h' t' eq_refl) as (p & s & -> & Hp & Hs).
    rewrite insert_descending in E. destruct (f h' <=? f x) eqn:C.
    + injection E as <- <-. exists [], (p ++ h' :: s).
      split; [reflexivity|]. split; [constructor|].
      apply Forall_app. split.
      * eapply Forall_impl; [|exact Hp]. cbn. intros; lia.
      * constructor; [lia|].
        eapply Forall_impl; [|exact Hs]. cbn. intros; lia.
    + injection E as <- <-. exists (x :: p), s.
      split; [reflexivity|]. split; [|exact Hs].
      constructor; [lia | exact Hp].
Qed.

Lemma sort_nonempty (cmp : A -> A -> Q) (l : list A) :
  l <> [] -> exists h t, Array_sort cmp l = h :: t.
Proof.
  intros Hl. destruct (Array_sort cmp l) as [|h t] eqn:S; [|now exists h, t].
  contradiction Hl. apply Permutation_nil.
  rewrite <- S. apply Array_sort_perm.
Qed.

End SortHead.

(** ** The most frequent value *)

(** The key of the first entry, after sorting the table of counts by count,
    descending. *)
Lemma top_of_table (values : list string) (v : string) :
  option_map fst
    (hd_error (Array_sort byCountDesc
                 (table (occurrences values) (JsSet.from values)))) = Some v ->
  firstMostFrequent values v.
Proof.
  destruct (Array_sort byCountDesc _) as [|[k c] t] eqn:S; [discriminate|].
  cbn. intros Hk. injection Hk as Hk. subst k.
  destruct (hd_sort_descending snd _ _ _ S) as (P & R & Htab & HP & HR).
  unfold table in Htab.
  apply map_eq_app in Htab as (pk & rk & Hks & <- & Hrk).
  apply map_eq_cons in Hrk as (k' & sk & -> & [= Ek Ec] & <-).
  subst k' c.
  rewrite Forall_map in HP, HR. cbn [snd] in HP, HR.
  rewrite Forall_forall in HP, HR.
  pose proof (JsSetFacts.from_NoDup values) as Hnd.
  assert (Hv : In v values).
  { apply JsSetFacts.from_In. rewrite Hks, in_app_iff. right. now left. }
  destruct (first_occurrence string_dec v values Hv) as (p & s & Hval & Hp).
  exists p, s. split; [exact Hval|]. split.
  - intros w Hw. apply HP.
    destruct (JsSetFacts.from_app p (v :: s)) as (rest & Hfrom & Hrest).
    rewrite <- Hval in Hfrom.
    assert (Hvr : In v rest).
    { assert (H : In v (JsSet.from p ++ rest))
        by (rewrite <- Hfrom, Hks, in_app_iff; right; now left).
      apply in_app_iff in H as [H|H]; [|exact H].
      apply (proj1 (JsSetFacts.from_In _ _)) in H. contradiction. }
    apply in_split in Hvr as (r1 & r2 & ->).
    rewrite Hks in Hfrom, Hnd. rewrite app_assoc in Hfrom.
    assert (H1 : ~ In v pk).
    { apply NoDup_remove_2 in Hnd. rewrite in_app_iff in Hnd. tauto. }
    assert (H2 : ~ In v (JsSet.from p ++ r1)).
    { rewrite Hfrom in Hnd. apply NoDup_remove_2 in Hnd.
      rewrite in_app_iff in Hnd. tauto. }
    destruct (split_unique v _ _ _ _ H1 H2 Hfrom) as [-> _].
    rewrite in_app_iff. left. now apply JsSetFacts.from_In.
  - intros w Hw.
    assert (Hin : In w (JsSet.from values)).
    { apply JsSetFacts.from_In. rewrite Hval, in_app_iff. right. now right. }
    rewrite Hks, in_app_iff in Hin. destruct Hin as [Hin|[<-|Hin]].
    + apply Z.lt_le_incl, HP, Hin.
    + lia.
    + apply HR, Hin.
Qed.

Lemma top_of_table_exists (values : list string) :
  values <> [] ->
  exists v,
    option_map fst
      (hd_error (Array_sort byCountDesc
                   (table (occurrences values) (JsSet.from values)))) = Some v.
Proof.
  intros Hne.
  destruct (sort_nonempty byCountDesc (table (occurrences values) (JsSet.from values)))
    as ([k c] & t & ->).
  - destruct values as [|x l]; [now contradiction Hne|].
    assert (H : In x (JsSet.from (x :: l))) by (apply JsSetFacts.from_In; now left).
    destruct (JsSet.from (x :: l)); [destruct H | discriminate].
  - now exists k.
Qed.

(** C10, as the code has it: over a non-empty result list none of whose
    traditions is an array-index key or a name inherited from
    [Object.prototype], the dominant tradition is the most frequent tradition
    whose first occurrence in the result list is earliest; the standout
    feature is, without that restriction, the most frequent feature whose
    first occurrence in the flattened feature lists is earliest. *)
Theorem most_frequent_tie_break (ranked : list Ranked) :
  (ranked <> [] ->
   (forall t, In t (traditionsOf ranked) ->
              JsObject.isArrayIndex t = false /\ JsObject.isInherited t = false) ->
   exists v, mostCommonTradition (insights ranked) = Some v
             /\ firstMostFrequent (traditionsOf ranked) v)
  /\ (featuresOf ranked <> [] ->
      exists f, standoutFeature (insights ranked) = Some f
                /\ firstMostFrequent (featuresOf ranked) f).
Proof.
  split.
  - intros Hne Hkeys.
    cbn [insights mostCommonTradition].
    rewrite CountFacts.topTraditions_fold, CountFacts.fold_bump.
    rewrite CountFacts.entries_creation_order.
    + destruct (top_of_table_exists (traditionsOf ranked)) as (v & Hv).
      { destruct ranked; [now contradiction Hne | discriminate]. }
      exists v. split; [exact Hv | now apply top_of_table].
    + intros e He. unfold table in He. apply in_map_iff in He as (k & <- & Hk).
      apply Hkeys. now apply JsSetFacts.from_In.
  - intros Hne.
    cbn [insights standoutFeature]. unfold JsMap.entries.
    rewrite CountFacts.featureCounts_fold, CountFacts.fold_bump.
    destruct (top_of_table_exists (featuresOf ranked) Hne) as (f & Hf).
    exists f. split; [exact Hf | now apply top_of_table].
Qed.

Lemma most_frequent_tie_break_witness :
  let ranked := rankedTemples [borobudur; angkorWat] (browseAll "" relevance) in
  (exists v, mostCommonTradition (insights ranked) = Some v
             /\ firstMostFrequent (traditionsOf ranked) v)
  /\ (exists f, standoutFeature (insights ranked) = Some f
                /\ firstMostFrequent (featuresOf ranked) f).
Proof.
  intros ranked.
  destruct (most_frequent_tie_break ranked) as [Ht Hf]. split.
  - apply Ht; [discriminate|].
    intros t [<-|[<-|[]]]; split; reflexivity.
  - apply Hf. discriminate.
Defined.

(** C10 as stated fails for traditions that are array-index keys: the object
    enumerates ["1"] before ["2"] although ["2"] was counted first. *)
Lemma dominant_tradition_ignores_result_order :
  let ranked := [entryOfTradition "2"; entryOfTradition "1"] in
  mostCommonTradition (insights ranked) = Some "1"
  /\ ~ firstMostFrequent (traditionsOf ranked) "1".
Proof.
  split; [reflexivity|].
  intros (p & s & Hsplit & Hp & _).
  destruct p as [|x p]; [discriminate Hsplit|].
  injection Hsplit as <- Hrest.
  specialize (Hp "2" (or_introl eq_refl)). vm_compute in Hp. discriminate Hp.
Qed.


(* ================================================================== *)
(** * Further properties of the component *)

(** ** Sorted output *)

Section SortedOutput.

Context {A : Type} (cmp : A -> A -> Q) (R : A -> A -> Prop).

(** [R] is the order the comparator decides. *)
Hypothesis cmp_front : forall x y, Qle_bool (cmp x y) 0 = true -> R x y.
Hypothesis cmp_back : forall x y, Qle_bool (cmp x y) 0 = false -> R y x.
Hypothesis R_trans : forall x y z, R x y -> R y z -> R x z.

Lemma insert_sorted_StronglySorted (x : A) (l : list A) :
  StronglySorted R l -> StronglySorted R (insert_sorted cmp x l).
Proof.
  induction 1 as [|y l Hs IH Hy]; [repeat constructor|].
  cbn [insert_sorted]. destruct (Qle_bool (cmp x y) 0) eqn:E.
  - constructor; [now constructor|].
    constructor; [now apply cmp_front|].
    eapply Forall_impl; [|exact Hy]. intros z Hz.
    eapply R_trans; [apply cmp_front; exact E | exact Hz].
  - constructor; [exact IH|].
    apply Forall_forall. intros z Hz.
    apply (Permutation_in _ (insert_sorted_perm cmp x l)) in Hz.
    destruct Hz as [<-|Hz]; [now apply cmp_back|].
    rewrite Forall_forall in Hy. now apply Hy.
Qed.

Lemma Array_sort_StronglySorted (l : list A) :
  StronglySorted R (Array_sort cmp l).
Proof.
  induction l as [|x l IH]; [constructor|].
  apply insert_sorted_StronglySorted, IH.
Qed.

End SortedOutput.

Lemma inject_Z_minus (x y : Z) : inject_Z (x - y) = (inject_Z x - inject_Z y)%Q.
Proof. unfold Z.sub. now rewrite inject_Z_plus, inject_Z_opp. Qed.

Lemma Qle_bool_false (x y : Q) : Qle_bool x y = false -> (y < x)%Q.
Proof.
  intros H. apply Qnot_le_lt. intros Hle.
  apply Qle_bool_iff in Hle. congruence.
Qed.

(** X1: the result list is ordered as the selected sort order says: scores
    descending under [relevance], founding years ascending under [oldest] and
    descending under [newest], significance descending under
    [significance]. *)
Theorem ranked_sorted (temples : list Temple.t) (qs : QueryState) :
  match sortOrder qs with
  | relevance =>
      StronglySorted (fun a b => (score b <= score a)%Q) (rankedTemples temples qs)
  | oldest =>
      StronglySorted (fun a b => foundedOf a <= foundedOf b) (rankedTemples temples qs)
  | newest =>
      StronglySorted (fun a b => foundedOf b <= foundedOf a) (rankedTemples temples qs)
  | significance =>
      StronglySorted
        (fun a b => (Temple.significanceScore (temple b)
                     <= Temple.significanceScore (temple a))%Q)
        (rankedTemples temples qs)
  end.
Proof.
  unfold rankedTemples.
  destruct (sortOrder qs); apply Array_sort_StronglySorted;
    cbn [compareRanked]; unfold foundedOf.
  - intros x y H. apply Qle_bool_iff in H. lra.
  - intros x y H. apply Qle_bool_false in H. lra.
  - intros x y z; lra.
  - intros x y H. apply Qle_bool_iff in H.
    rewrite inject_Z_minus in H. rewrite Zle_Qle. lra.
  - intros x y H. apply Qle_bool_false in H.
    rewrite inject_Z_minus in H. rewrite Zle_Qle. lra.
  - intros x y z; lia.
  - intros x y H. apply Qle_bool_iff in H.
    rewrite inject_Z_minus in H. rewrite Zle_Qle. lra.
  - intros x y H. apply Qle_bool_false in H.
    rewrite inject_Z_minus in H. rewrite Zle_Qle. lra.
  - intros x y z; lia.
  - intros x y H. apply Qle_bool_iff in H. lra.
  - intros x y H. apply Qle_bool_false in H. lra.
  - intros x y z; lra.
Qed.

(** X2: every sort order keeps ties in catalog order: the entries of the
    result that share a sort key are the retained entries with that key, in
    catalog order. *)
Theorem every_sort_stable (temples : list Temple.t) (qs : QueryState) (k : Q) :
  filter (fun r => Qeq_bool (sortKey (sortOrder qs) r) k) (rankedTemples temples qs)
  = filter (fun r => Qeq_bool (sortKey (sortOrder qs) r) k) (retained temples qs).
Proof.
  unfold rankedTemples. apply Array_sort_filter.
  intros x y Hx Hy. apply Qeq_bool_iff in Hx, Hy. apply Qle_bool_iff.
  destruct (sortOrder qs); cbn [compareRanked sortKey] in *;
    try rewrite inject_Z_minus; rewrite Hx, Hy; lra.
Qed.

(** X3: up to order, the result list is the catalog filtered by
    [matchesFilters], each temple paired with its score for the normalized
    search term; so the number of results is the number of temples that pass
    the filters, and never exceeds the size of the catalog. *)
Theorem ranked_is_scored_filter (temples : list Temple.t) (qs : QueryState) :
  Permutation
    (rankedTemples temples qs)
    (map (fun t => {| temple := t; score := scoreTemple t (normalizedSearch qs) |})
         (filter (fun t => matchesFilters t (selection qs)) temples))
  /\ List.length (rankedTemples temples qs)
     = List.length (filter (fun t => matchesFilters t (selection qs)) temples)
  /\ (List.length (rankedTemples temples qs) <= List.length temples)%nat.
Proof.
  assert (E : retained temples qs
              = map (fun t => {| temple := t;
                                 score := scoreTemple t (normalizedSearch qs) |})
                    (filter (fun t => matchesFilters t (selection qs)) temples)).
  { unfold retained, scored.
    induction temples as [|t l IH]; [reflexivity|]. cbn [map filter temple].
    destruct (matchesFilters t (selection qs)); cbn [map]; now rewrite IH. }
  assert (P : Permutation (rankedTemples temples qs) (retained temples qs))
    by apply Array_sort_perm.
  rewrite E in P. split; [exact P|].
  apply Permutation_length in P. rewrite length_map in P.
  split; [exact P|]. rewrite P. apply filter_length_le.
Qed.

(** ** Sort orders that coincide *)

Section SortExt.

Context {A : Type} (c1 c2 : A -> A -> Q).

Lemma insert_sorted_ext (x : A) (l : list A) :
  (forall y, In y l -> Qle_bool (c1 x y) 0 = Qle_bool (c2 x y) 0) ->
  insert_sorted c1 x l = insert_sorted c2 x l.
Proof.
  induction l as [|y l IH]; intros H; [reflexivity|].
  cbn [insert_sorted]. rewrite (H y (or_introl eq_refl)).
  destruct (Qle_bool (c2 x y) 0); [reflexivity|].
  rewrite IH; [reflexivity|]. intros z Hz. apply H. now right.
Qed.

(** Two comparators that decide alike on the elements of a list sort it
    alike. *)
Lemma Array_sort_ext (l : list A) :
  (forall x y, In x l -> In y l -> Qle_bool (c1 x y) 0 = Qle_bool (c2 x y) 0) ->
  Array_sort c1 l = Array_sort c2 l.
Proof.
  induction l as [|x l IH]; intros H; [reflexivity|].
  cbn [Array_sort fold_right]. fold (Array_sort c1 l). fold (Array_sort c2 l).
  rewrite IH by (intros a b Ha Hb; apply H; now right).
  apply insert_sorted_ext. intros y Hy.
  apply H; [now left | right; now apply (Array_sort_In c2 l y)].
Qed.

End SortExt.

(** X4: when the normalized search term is empty, every score is the
    temple's significance, and sorting by [relevance] gives the same list as
    sorting by [significance]. *)
Theorem empty_search_relevance_is_significance
    (temples : list Temple.t) (qs : QueryState) :
  normalizedSearch qs = "" ->
  (forall r, In r (rankedTemples temples qs) ->
             score r = Temple.significanceScore (temple r))
  /\ rankedTemples temples (withSortOrder qs relevance)
     = rankedTemples temples (withSortOrder qs significance).
Proof.
  intros Hq.
  assert (Hs : forall r, In r (retained temples qs) ->
                         score r = Temple.significanceScore (temple r)).
  { intros r Hr. apply In_retained in Hr as (_ & -> & _). now rewrite Hq. }
  split.
  - intros r Hr. apply Hs. now apply In_rankedTemples.
  - unfold rankedTemples. rewrite !retained_withSortOrder.
    cbn [sortOrder withSortOrder]. apply Array_sort_ext.
    intros x y Hx Hy. cbn [compareRanked]. now rewrite (Hs x Hx), (Hs y Hy).
Qed.

Lemma empty_search_relevance_is_significance_witness :
  normalizedSearch (browseAll "  " newest) = ""
  /\ rankedTemples [borobudur; angkorWat] (withSortOrder (browseAll "  " newest) relevance)
     = rankedTemples [borobudur; angkorWat]
         (withSortOrder (browseAll "  " newest) significance).
Proof.
  split; [reflexivity|].
  exact (proj2 (empty_search_relevance_is_significance
                  [borobudur; angkorWat] (browseAll "  " newest) eq_refl)).
Defined.

(** ** Range of the score *)

(** X5: for a temple of non-negative significance the score lies between
    [significanceScore * 0.7] and [significanceScore + 50], whatever the
    query. *)
Theorem score_bounds (T : Temple.t) (q : string) :
  (0 <= Temple.significanceScore T)%Q ->
  (Temple.significanceScore T * (7 # 10) <= scoreTemple T q)%Q
  /\ (scoreTemple T q <= Temple.significanceScore T + 50)%Q.
Proof.
  intros Hbase. unfold scoreTemple, nameMatch, cityMatch, featureMatch.
  destruct (JsString.truthy q); cbn [negb]; [|split; lra].
  destruct (JsString.includes (haystacks T) q); cbn [negb]; [|split; lra].
  destruct (JsString.includes (JsString.toLowerCase (Temple.name T)) q),
           (JsString.includes (JsString.toLowerCase (Temple.city T)) q),
           (existsb _ (Temple.features T)); split; lra.
Qed.

Lemma score_bounds_witness :
  (0 <= Temple.significanceScore borobudur)%Q
  /\ (Temple.significanceScore borobudur * (7 # 10) <= scoreTemple borobudur "stupa")%Q
  /\ (scoreTemple borobudur "stupa" <= Temple.significanceScore borobudur + 50)%Q.
Proof.
  assert (H : (0 <= Temple.significanceScore borobudur)%Q) by (cbn; lra).
  split; [exact H | exact (score_bounds borobudur "stupa" H)].
Defined.

(** ** Hits in the name, the city or a feature are hits in the searchable text *)

Lemma join_hit (l : list string) (f q : string) :
  In f l ->
  JsString.includes (JsString.toLowerCase f) q = true ->
  JsString.includes (JsString.toLowerCase (JsString.join " " l)) q = true.
Proof.
  unfold JsString.join.
  induction l as [|x l IH]; intros Hin Hq; [destruct Hin|].
  destruct l as [|y l].
  - destruct Hin as [->|[]]. exact Hq.
  - change (concat " " (x :: y :: l))
      with ((x ++ " " ++ concat " " (y :: l))%string).
    rewrite JsStringFacts.toLowerCase_app.
    destruct Hin as [->|Hin].
    + now apply JsStringFacts.includes_app_l.
    + apply JsStringFacts.includes_app_r.
      rewrite JsStringFacts.toLowerCase_app.
      apply JsStringFacts.includes_app_r. now apply IH.
Qed.

Lemma city_hit_in_haystacks (T : Temple.t) (q : string) :
  JsString.includes (JsString.toLowerCase (Temple.city T)) q = true ->
  JsString.includes (haystacks T) q = true.
Proof.
  intros H. unfold haystacks, JsString.join at 1. cbn [concat].
  rewrite !JsStringFacts.toLowerCase_app.
  apply JsStringFacts.includes_app_r, JsStringFacts.includes_app_r.
  now apply JsStringFacts.includes_app_l.
Qed.

Lemma feature_hit_in_haystacks (T : Temple.t) (f q : string) :
  In f (Temple.features T) ->
  JsString.includes (JsString.toLowerCase f) q = true ->
  JsString.includes (haystacks T) q = true.
Proof.
  intros Hin H. unfold haystacks, JsString.join at 1. cbn [concat].
  rewrite !JsStringFacts.toLowerCase_app.
  do 10 apply JsStringFacts.includes_app_r.
  now apply (join_hit _ f).
Qed.

(** X6: a non-empty query found in the case-folded name, city or one of the
    features is found in the searchable text, so the temple is not penalised:
    its score is at least [significanceScore + 10]. *)
Theorem matched_temple_not_penalised (T : Temple.t) (q : string) :
  q <> "" ->
  JsString.includes (JsString.toLowerCase (Temple.name T)) q = true
  \/ JsString.includes (JsString.toLowerCase (Temple.city T)) q = true
  \/ (exists f, In f (Temple.features T)
                /\ JsString.includes (JsString.toLowerCase f) q = true) ->
  JsString.includes (haystacks T) q = true
  /\ (Temple.significanceScore T + 10 <= scoreTemple T q)%Q.
Proof.
  intros Hq Hhit.
  assert (Hh : JsString.includes (haystacks T) q = true).
  { destruct Hhit as [H|[H|(f & Hf & H)]].
    - now apply name_hit_in_haystacks.
    - now apply city_hit_in_haystacks.
    - now apply (feature_hit_in_haystacks T f). }
  split; [exact Hh|].
  apply JsStringFacts.truthy_true_iff in Hq.
  unfold scoreTemple, nameMatch, cityMatch, featureMatch.
  rewrite Hq, Hh. cbn [negb].
  destruct Hhit as [H|[H|H]].
  - rewrite H.
    destruct (JsString.includes (JsString.toLowerCase (Temple.city T)) q),
             (existsb _ (Temple.features T)); lra.
  - rewrite H.
    destruct (JsString.includes (JsString.toLowerCase (Temple.name T)) q),
             (existsb _ (Temple.features T)); lra.
  - apply existsb_exists in H. rewrite H.
    destruct (JsString.includes (JsString.toLowerCase (Temple.name T)) q),
             (JsString.includes (JsString.toLowerCase (Temple.city T)) q); lra.
Qed.

Lemma matched_temple_not_penalised_witness :
  "views" <> ""
  /\ JsString.includes (haystacks angkorWat) "views" = true
  /\ (Temple.significanceScore angkorWat + 10 <= scoreTemple angkorWat "views")%Q.
Proof.
  assert (Hq : "views" <> "") by discriminate.
  split; [exact Hq|].
  apply (matched_temple_not_penalised angkorWat "views" Hq).
  right. right. exists "Sunrise Views". split; [right; now left | reflexivity].
Defined.

(** ** Active filters and reset *)

Lemma strictNotEqual_false (a b : string) : strictNotEqual a b = false <-> a = b.
Proof.
  unfold strictNotEqual. destruct (String.eqb_spec a b); cbn; split; congruence.
Qed.

(** X7: the active filters are the selections that differ from ["All"], each
    under its label, in the order Region, Tradition, Environment,
    Highlight. *)
Theorem activeFilters_are_non_All_selections (qs : QueryState) :
  activeFilters qs
  = filter (fun f => strictNotEqual (value f) ALL_OPTION) (labelledSelections qs).
Proof.
  unfold activeFilters, labelledSelections, push. cbn [filter value].
  destruct (strictNotEqual (selectedRegion qs) ALL_OPTION),
           (strictNotEqual (selectedTradition qs) ALL_OPTION),
           (strictNotEqual (selectedEnvironment qs) ALL_OPTION),
           (strictNotEqual (selectedFeature qs) ALL_OPTION); reflexivity.
Qed.

Lemma matchesFilters_all (T : Temple.t) (o : FilterOptions) :
  opt_region o = ALL_OPTION -> opt_tradition o = ALL_OPTION ->
  opt_environment o = ALL_OPTION -> opt_feature o = ALL_OPTION ->
  matchesFilters T o = true.
Proof.
  intros Hr Ht He Hf. unfold matchesFilters. now rewrite Hr, Ht, He, Hf.
Qed.

Lemma filter_all_true {A : Type} (p : A -> bool) (l : list A) :
  (forall x, In x l -> p x = true) -> filter p l = l.
Proof.
  induction l as [|x l IH]; intros H; [reflexivity|].
  cbn [filter]. rewrite (H x (or_introl eq_refl)). f_equal.
  apply IH. intros y Hy. apply H. now right.
Qed.

Lemma unfiltered_lists_all (temples : list Temple.t) (qs : QueryState) :
  selectedRegion qs = ALL_OPTION -> selectedTradition qs = ALL_OPTION ->
  selectedEnvironment qs = ALL_OPTION -> selectedFeature qs = ALL_OPTION ->
  Permutation (map temple (rankedTemples temples qs)) temples.
Proof.
  intros Hr Ht He Hf.
  transitivity (map temple (retained temples qs)).
  - apply Permutation_map, Array_sort_perm.
  - rewrite temples_of_retained, filter_all_true; [reflexivity|].
    intros T _. now apply matchesFilters_all.
Qed.

(** X8: the reset button is disabled exactly when all four selections are
    ["All"], and then the result holds every temple of the catalog. *)
Theorem reset_disabled_iff_unfiltered (temples : list Temple.t) (qs : QueryState) :
  (resetDisabled qs = true <->
   selectedRegion qs = ALL_OPTION /\ selectedTradition qs = ALL_OPTION
   /\ selectedEnvironment qs = ALL_OPTION /\ selectedFeature qs = ALL_OPTION)
  /\ (resetDisabled qs = true ->
      Permutation (map temple (rankedTemples temples qs)) temples).
Proof.
  assert (Hiff : resetDisabled qs = true <->
                 selectedRegion qs = ALL_OPTION /\ selectedTradition qs = ALL_OPTION
                 /\ selectedEnvironment qs = ALL_OPTION
                 /\ selectedFeature qs = ALL_OPTION).
  { unfold resetDisabled, activeFilters, push.
    rewrite <- !strictNotEqual_false.
    destruct (strictNotEqual (selectedRegion qs) ALL_OPTION),
             (strictNotEqual (selectedTradition qs) ALL_OPTION),
             (strictNotEqual (selectedEnvironment qs) ALL_OPTION),
             (strictNotEqual (selectedFeature qs) ALL_OPTION);
      cbn; intuition congruence. }
  split; [exact Hiff|].
  intros Hd. apply Hiff in Hd as (Hr & Ht & He & Hf).
  now apply unfiltered_lists_all.
Qed.

Lemma matchesFilters_clear (T : Temple.t) (qs : QueryState) :
  matchesFilters T (selection (clearFilters qs)) = true.
Proof. now apply matchesFilters_all. Qed.

(** X9: [clearFilters] keeps the search term and the sort order, leaves no
    active filter, and does nothing when applied again; after it every temple
    of the catalog is listed, and every entry listed before it is still
    listed. *)
Theorem clearFilters_resets (temples : list Temple.t) (qs : QueryState) :
  searchTerm (clearFilters qs) = searchTerm qs
  /\ sortOrder (clearFilters qs) = sortOrder qs
  /\ activeFilters (clearFilters qs) = []
  /\ clearFilters (clearFilters qs) = clearFilters qs
  /\ Permutation (map temple (rankedTemples temples (clearFilters qs))) temples
  /\ (forall r, In r (rankedTemples temples qs) ->
                In r (rankedTemples temples (clearFilters qs))).
Proof.
  repeat (split; [reflexivity|]). split.
  - now apply unfiltered_lists_all.
  - intros r Hr. apply In_rankedTemples, In_retained.
    apply In_rankedTemples, In_retained in Hr as (Hin & Hs & _).
    split; [exact Hin | split; [exact Hs | apply matchesFilters_clear]].
Qed.

(** X10: setting any one selection to ["All"] never removes a listed
    entry. *)
Theorem relaxing_a_filter_keeps_results
    (temples : list Temple.t) (qs : QueryState) (r : Ranked) :
  In r (rankedTemples temples qs) ->
  In r (rankedTemples temples (setSelectedRegion qs ALL_OPTION))
  /\ In r (rankedTemples temples (setSelectedTradition qs ALL_OPTION))
  /\ In r (rankedTemples temples (setSelectedEnvironment qs ALL_OPTION))
  /\ In r (rankedTemples temples (setSelectedFeature qs ALL_OPTION)).
Proof.
  intros Hr. apply In_rankedTemples, In_retained in Hr as (Hin & Hs & Hm).
  unfold matchesFilters in Hm. cbn [selection opt_region opt_tradition
    opt_environment opt_feature] in Hm.
  apply andb_true_iff in Hm as [Hm Hf]. apply andb_true_iff in Hm as [Hm He].
  apply andb_true_iff in Hm as [Hr Ht].
  repeat split; apply In_rankedTemples, In_retained;
    (split; [exact Hin | split; [exact Hs |]]);
    unfold matchesFilters; cbn; rewrite ?Hr, ?Ht, ?He, ?Hf; reflexivity.
Qed.

Lemma relaxing_a_filter_keeps_results_witness :
  let qs := setSelectedRegion (browseAll "" relevance) "Southeast Asia" in
  let r := {| temple := borobudur; score := 90 |} in
  In r (rankedTemples [angkorWat; borobudur] qs)
  /\ In r (rankedTemples [angkorWat; borobudur] (setSelectedRegion qs ALL_OPTION)).
Proof.
  intros qs r.
  assert (H : In r (rankedTemples [angkorWat; borobudur] qs)) by (right; now left).
  split; [exact H|].
  exact (proj1 (relaxing_a_filter_keeps_results [angkorWat; borobudur] qs r H)).
Defined.

(** ** Facet lists against the filter *)

Lemma listed_when_matching (temples : list Temple.t) (qs : QueryState) (T : Temple.t) :
  In T temples -> matchesFilters T (selection qs) = true ->
  rankedTemples temples qs <> [].
Proof.
  intros Hin Hm Hnil.
  assert (H : In {| temple := T; score := scoreTemple T (normalizedSearch qs) |}
                 (rankedTemples temples qs)).
  { apply In_rankedTemples, In_retained. cbn [temple score]. auto. }
  rewrite Hnil in H. destruct H.
Qed.

Lemma none_listed_when_none_matching (temples : list Temple.t) (qs : QueryState) :
  (forall T, In T temples -> matchesFilters T (selection qs) = false) ->
  rankedTemples temples qs = [].
Proof.
  intros H. destruct (rankedTemples temples qs) as [|r l] eqn:E; [reflexivity|].
  assert (Hr : In r (rankedTemples temples qs)) by (rewrite E; now left).
  apply In_rankedTemples, In_retained in Hr as (Hin & _ & Hm).
  rewrite (H _ Hin) in Hm. discriminate.
Qed.

Lemma features_facet_In (temples : list Temple.t) (v : string) :
  In v (features temples) <->
  v = ALL_OPTION \/ exists T, In T temples /\ In v (Temple.features T).
Proof.
  unfold features, JsSet.values. rewrite fold_features.
  fold (JsSet.from (flat_map Temple.features temples)).
  cbn [In]. rewrite Array_sort_In, JsSetFacts.from_In, in_flat_map.
  intuition congruence.
Qed.

Lemma facet_In {f : Temple.t -> string} (temples : list Temple.t) (v : string) :
  In v (ALL_OPTION :: JsSet.values (JsSet.from (map f temples))) <->
  v = ALL_OPTION \/ exists T, In T temples /\ f T = v.
Proof.
  unfold JsSet.values. cbn [In]. rewrite JsSetFacts.from_In, in_map_iff.
  split; intros [H|(T & H1 & H2)]; auto; right; exists T; auto.
Qed.

(** X11: in a non-empty catalog every option a select box offers, chosen
    with the other three filters at ["All"], yields at least one result. *)
Theorem offered_option_has_result
    (temples : list Temple.t) (qs : QueryState) (v : string) :
  temples <> [] ->
  (In v (regions temples) ->
   rankedTemples temples (setSelectedRegion (clearFilters qs) v) <> [])
  /\ (In v (traditions temples) ->
      rankedTemples temples (setSelectedTradition (clearFilters qs) v) <> [])
  /\ (In v (environments temples) ->
      rankedTemples temples (setSelectedEnvironment (clearFilters qs) v) <> [])
  /\ (In v (features temples) ->
      rankedTemples temples (setSelectedFeature (clearFilters qs) v) <> []).
Proof.
  intros Hne.
  assert (Hall : forall q : QueryState,
             selectedRegion q = ALL_OPTION -> selectedTradition q = ALL_OPTION ->
             selectedEnvironment q = ALL_OPTION -> selectedFeature q = ALL_OPTION ->
             rankedTemples temples q <> []).
  { intros q Hr Ht He Hf. destruct temples as [|T l]; [now contradiction Hne|].
    apply (listed_when_matching _ q T); [now left|].
    now apply matchesFilters_all. }
  repeat split.
  - intros Hv. apply facet_In in Hv as [->|(T & Hin & <-)]; [now apply Hall|].
    apply (listed_when_matching _ _ T Hin).
    unfold matchesFilters. cbn. now rewrite String.eqb_refl, orb_true_r.
  - intros Hv. apply facet_In in Hv as [->|(T & Hin & <-)]; [now apply Hall|].
    apply (listed_when_matching _ _ T Hin).
    unfold matchesFilters. cbn. now rewrite String.eqb_refl, orb_true_r.
  - intros Hv. apply facet_In in Hv as [->|(T & Hin & <-)]; [now apply Hall|].
    apply (listed_when_matching _ _ T Hin).
    unfold matchesFilters. cbn. now rewrite String.eqb_refl, orb_true_r.
  - intros Hv. apply features_facet_In in Hv as [->|(T & Hin & Hv)]; [now apply Hall|].
    apply (listed_when_matching _ _ T Hin).
    unfold matchesFilters, array_includes. cbn.
    assert (E : existsb (String.eqb v) (Temple.features T) = true).
    { apply existsb_exists. exists v. split; [exact Hv | apply String.eqb_refl]. }
    rewrite E. apply orb_true_r.
Qed.

Lemma offered_option_has_result_witness :
  [angkorWat; borobudur] <> []
  /\ In "Volcanic" (environments [angkorWat; borobudur])
  /\ rankedTemples [angkorWat; borobudur]
       (setSelectedEnvironment (clearFilters (browseAll "wat" oldest)) "Volcanic")
     <> [].
Proof.
  assert (Hne : [angkorWat; borobudur] <> []) by discriminate.
  assert (Hin : In "Volcanic" (environments [angkorWat; borobudur]))
    by (right; right; now left).
  split; [exact Hne|]. split; [exact Hin|].
  destruct (offered_option_has_result [angkorWat; borobudur]
              (browseAll "wat" oldest) "Volcanic" Hne) as (_ & _ & He & _).
  exact (He Hin).
Defined.

(** X12: a selection that the corresponding select box does not offer
    yields no result, whatever the other selections. *)
Theorem unoffered_selection_has_no_result
    (temples : list Temple.t) (qs : QueryState) (v : string) :
  (~ In v (regions temples) ->
   rankedTemples temples (setSelectedRegion qs v) = [])
  /\ (~ In v (traditions temples) ->
      rankedTemples temples (setSelectedTradition qs v) = [])
  /\ (~ In v (environments temples) ->
      rankedTemples temples (setSelectedEnvironment qs v) = [])
  /\ (~ In v (features temples) ->
      rankedTemples temples (setSelectedFeature qs v) = []).
Proof.
  repeat split; intros Hv; apply none_listed_when_none_matching; intros T HT;
    unfold matchesFilters, selection;
    cbn [opt_region opt_tradition opt_environment opt_feature
         setSelectedRegion setSelectedTradition setSelectedEnvironment
         setSelectedFeature selectedRegion selectedTradition
         selectedEnvironment selectedFeature].
  - assert (E1 : (v =? ALL_OPTION)%string = false).
    { apply String.eqb_neq. intros ->. apply Hv. now left. }
    assert (E2 : (Temple.region T =? v)%string = false).
    { apply String.eqb_neq. intros E. apply Hv, facet_In. right. now exists T. }
    now rewrite E1, E2.
  - assert (E1 : (v =? ALL_OPTION)%string = false).
    { apply String.eqb_neq. intros ->. apply Hv. now left. }
    assert (E2 : (Temple.tradition T =? v)%string = false).
    { apply String.eqb_neq. intros E. apply Hv, facet_In. right. now exists T. }
    rewrite E1, E2. cbn [orb]. now rewrite andb_false_r.
  - assert (E1 : (v =? ALL_OPTION)%string = false).
    { apply String.eqb_neq. intros ->. apply Hv. now left. }
    assert (E2 : (Temple.environment T =? v)%string = false).
    { apply String.eqb_neq. intros E. apply Hv, facet_In. right. now exists T. }
    rewrite E1, E2. cbn [orb]. now rewrite andb_false_r.
  - assert (E1 : (v =? ALL_OPTION)%string = false).
    { apply String.eqb_neq. intros ->. apply Hv, features_facet_In. now left. }
    assert (E2 : array_includes (Temple.features T) v = false).
    { unfold array_includes.
      destruct (existsb (String.eqb v) (Temple.features T)) eqn:E; [|reflexivity].
      apply existsb_exists in E as (x & Hx & Ex). apply String.eqb_eq in Ex. subst x.
      contradiction Hv. apply features_facet_In. right. now exists T. }
    rewrite E1, E2. cbn [orb]. now rewrite andb_false_r.
Qed.

Lemma unoffered_selection_has_no_result_witness :
  ~ In "Desert" (environments [angkorWat; borobudur])
  /\ rankedTemples [angkorWat; borobudur]
       (setSelectedEnvironment (browseAll "" relevance) "Desert") = [].
Proof.
  assert (H : ~ In "Desert" (environments [angkorWat; borobudur])).
  { cbn. intuition discriminate. }
  split; [exact H|].
  destruct (unoffered_selection_has_no_result [angkorWat; borobudur]
              (browseAll "" relevance) "Desert") as (_ & _ & He & _).
  exact (He H).
Defined.

(** X13: a select box offers no option twice unless ["All"] is itself a
    value of that dimension in the catalog. *)
Theorem facet_options_distinct (temples : list Temple.t) :
  (NoDup (regions temples) <-> ~ In ALL_OPTION (map Temple.region temples))
  /\ (NoDup (traditions temples) <-> ~ In ALL_OPTION (map Temple.tradition temples))
  /\ (NoDup (environments temples)
      <-> ~ In ALL_OPTION (map Temple.environment temples))
  /\ (NoDup (features temples)
      <-> ~ In ALL_OPTION (flat_map Temple.features temples)).
Proof.
  assert (H : forall l, NoDup (ALL_OPTION :: JsSet.from l) <-> ~ In ALL_OPTION l).
  { intros l. rewrite NoDup_cons_iff, JsSetFacts.from_In.
    pose proof (JsSetFacts.from_NoDup l). tauto. }
  repeat split; try apply H; try (intros Hn; now apply (proj2 (H _))).
  - unfold features, JsSet.values. rewrite fold_features.
    fold (JsSet.from (flat_map Temple.features temples)).
    intros Hnd Hin. apply NoDup_cons_iff in Hnd as [Hnd _]. apply Hnd.
    now apply Array_sort_In, JsSetFacts.from_In.
  - unfold features, JsSet.values. rewrite fold_features.
    fold (JsSet.from (flat_map Temple.features temples)).
    intros Hn. constructor.
    + intros Hin. apply (proj1 (Array_sort_In _ _ _)) in Hin.
      apply (proj1 (JsSetFacts.from_In _ _)) in Hin. contradiction.
    + eapply Permutation_NoDup; [apply Permutation_sym, Array_sort_perm|].
      apply JsSetFacts.from_NoDup.
Qed.

(** ** Insights that do not depend on the order of the results *)

Lemma from_length_perm (l l' : list string) :
  Permutation l l' ->
  List.length (JsSet.from l) = List.length (JsSet.from l').
Proof.
  intros P. apply Permutation_length, NoDup_Permutation;
    try apply JsSetFacts.from_NoDup.
  intros x. rewrite !JsSetFacts.from_In.
  split; apply Permutation_in; [exact P | now apply Permutation_sym].
Qed.

Lemma fold_founded (l : list Ranked) (a : Z) :
  fold_left (fun acc r => acc + Temple.founded (temple r)) l a
  = a + fold_right Z.add 0 (map Temple.founded (map temple l)).
Proof.
  revert a. induction l as [|r l IH]; intros a; cbn [fold_left map fold_right].
  - lia.
  - rewrite IH. lia.
Qed.

Lemma sum_perm (l l' : list Z) :
  Permutation l l' -> fold_right Z.add 0 l = fold_right Z.add 0 l'.
Proof. induction 1; cbn [fold_right]; lia. Qed.

(** The country count and the average founding year are functions of the
    listed temples as a multiset. *)
Lemma insights_of_listed_temples (l l' : list Ranked) :
  Permutation (map temple l) (map temple l') ->
  uniqueCountries (insights l) = uniqueCountries (insights l')
  /\ averageFoundedYear (insights l) = averageFoundedYear (insights l').
Proof.
  intros P. cbn [insights uniqueCountries averageFoundedYear]. split.
  - unfold JsSet.size. apply from_length_perm.
    rewrite <- !(map_map temple Temple.country). now apply Permutation_map.
  - rewrite !fold_founded, !Z.add_0_l.
    rewrite (sum_perm _ _ (Permutation_map Temple.founded P)).
    apply Permutation_length in P. rewrite !length_map in P. now rewrite P.
Qed.

Lemma listed_temples (temples : list Temple.t) (qs : QueryState) :
  Permutation (map temple (rankedTemples temples qs))
              (filter (fun t => matchesFilters t (selection qs)) temples).
Proof.
  rewrite <- temples_of_retained. apply Permutation_map, Array_sort_perm.
Qed.

(** X14: changing the search term or the sort order changes neither the
    number of countries represented nor the average founding year. *)
Theorem countries_and_average_ignore_search_and_order
    (temples : list Temple.t) (qs : QueryState) (term : string) (order : SortOption) :
  let qs' := withSortOrder (withSearchTerm qs term) order in
  uniqueCountries (insights (rankedTemples temples qs'))
  = uniqueCountries (insights (rankedTemples temples qs))
  /\ averageFoundedYear (insights (rankedTemples temples qs'))
     = averageFoundedYear (insights (rankedTemples temples qs)).
Proof.
  intros qs'. apply insights_of_listed_temples.
  rewrite (listed_temples temples qs'), (listed_temples temples qs). reflexivity.
Qed.

(** ** The average founding year *)

Lemma founded_sum_bounds (l : list Ranked) (lo hi : Z) :
  (forall r, In r l -> lo <= foundedOf r <= hi) ->
  Z.of_nat (List.length l) * lo <= foundedSum l <= Z.of_nat (List.length l) * hi.
Proof.
  unfold foundedSum. rewrite fold_founded, Z.add_0_l.
  induction l as [|r l IH]; intros H; [cbn; lia|].
  cbn [map fold_right List.length]. rewrite Nat2Z.inj_succ.
  specialize (H r (or_introl eq_refl)) as Hr. unfold foundedOf in Hr.
  assert (IH' := IH (fun x Hx => H x (or_intror Hx))). lia.
Qed.

Lemma js_div_positive (a : Q) (m : Z) :
  1 <= m -> js_div a (inject_Z m) = Some (a / inject_Z m)%Q.
Proof.
  intros Hm. unfold js_div.
  destruct (Qeq_bool (inject_Z m) 0) eqn:E; [|reflexivity].
  apply Qeq_bool_iff in E. unfold Qeq in E. cbn in E. lia.
Qed.

(** X15: the average founding year is a number for every result list, the
    empty one included: the insight card never shows the placeholder that its
    [Number.isNaN] test guards. *)
Theorem average_is_always_a_number (ranked : list Ranked) :
  Number_isNaN (averageFoundedYear (insights ranked)) = false.
Proof.
  cbn [insights averageFoundedYear].
  rewrite js_div_positive by lia. reflexivity.
Qed.

(** X16: over a non-empty result list the average founding year lies between
    any lower and upper bound of the founding years of the results. *)
Theorem average_between_bounds (ranked : list Ranked) (lo hi : Z) :
  ranked <> [] ->
  (forall r, In r ranked -> lo <= foundedOf r <= hi) ->
  exists y, averageFoundedYear (insights ranked) = Some y /\ lo <= y <= hi.
Proof.
  intros Hne Hb.
  pose proof (founded_sum_bounds ranked lo hi Hb) as Hs.
  cbn [insights averageFoundedYear]. fold (foundedSum ranked).
  set (n := Z.of_nat (List.length ranked)) in *.
  assert (Hn : 1 <= n).
  { subst n. destruct ranked; [now contradiction Hne | cbn [List.length]; lia]. }
  rewrite Z.max_l by exact Hn.
  rewrite js_div_positive by exact Hn. cbn [Math_round option_map].
  eexists. split; [reflexivity|].
  assert (Hpos : (0 < inject_Z n)%Q).
  { change 0%Q with (inject_Z 0). rewrite <- Zlt_Qlt. lia. }
  assert (Hlo : (inject_Z lo <= inject_Z (foundedSum ranked) / inject_Z n)%Q).
  { apply Qle_shift_div_l; [exact Hpos|].
    rewrite <- inject_Z_mult, <- Zle_Qle. lia. }
  assert (Hhi : (inject_Z (foundedSum ranked) / inject_Z n <= inject_Z hi)%Q).
  { apply Qle_shift_div_r; [exact Hpos|].
    rewrite <- inject_Z_mult, <- Zle_Qle. lia. }
  split.
  - rewrite <- (Qfloor_Z lo). apply Qfloor_resp_le. lra.
  - assert (H : Qfloor (inject_Z (foundedSum ranked) / inject_Z n + (1 # 2)) < hi + 1).
    { rewrite Zlt_Qlt.
      eapply Qle_lt_trans; [apply Qfloor_le|].
      rewrite inject_Z_plus. change (inject_Z 1) with 1%Q. lra. }
    lia.
Qed.

Lemma average_between_bounds_witness :
  let ranked := rankedTemples [angkorWat; borobudur] (browseAll "" oldest) in
  exists y, averageFoundedYear (insights ranked) = Some y /\ 800 <= y <= 1113.
Proof.
  intros ranked.
  apply (average_between_bounds ranked 800 1113); [discriminate|].
  intros r [<-|[<-|[]]]; cbn; lia.
Defined.

(** ** The country count *)

(** X17: the number of countries represented is the number of distinct
    countries among the results; it is at most the number of results and is 0
    only for the empty result list. *)
Theorem uniqueCountries_counts_distinct (ranked : list Ranked) :
  (exists cs, NoDup cs
              /\ (forall c, In c cs <->
                            exists r, In r ranked /\ Temple.country (temple r) = c)
              /\ uniqueCountries (insights ranked) = List.length cs)
  /\ (uniqueCountries (insights ranked) <= List.length ranked)%nat
  /\ (uniqueCountries (insights ranked) = 0%nat <-> ranked = []).
Proof.
  cbn [insights uniqueCountries]. unfold JsSet.size.
  set (countries := map (fun r => Temple.country (temple r)) ranked).
  split; [|split].
  - exists (JsSet.from countries). split; [apply JsSetFacts.from_NoDup|].
    split; [|reflexivity].
    intros c. rewrite JsSetFacts.from_In. unfold countries. rewrite in_map_iff.
    split; intros (r & H1 & H2); exists r; auto.
  - rewrite <- (length_map (fun r => Temple.country (temple r)) ranked).
    apply NoDup_incl_length; [apply JsSetFacts.from_NoDup|].
    intros c Hc. now apply JsSetFacts.from_In.
  - split.
    + intros H0. destruct ranked as [|r l]; [reflexivity|].
      assert (Hin : In (Temple.country (temple r)) (JsSet.from countries))
        by (apply JsSetFacts.from_In; now left).
      destruct (JsSet.from countries); [destruct Hin | discriminate].
    + intros ->. reflexivity.
Qed.

(** ** The standout feature and the dominant tradition *)

Lemma firstMostFrequent_In (values : list string) (v : string) :
  firstMostFrequent values v -> In v values.
Proof.
  intros (p & s & -> & _). rewrite in_app_iff. right. now left.
Qed.

(** X18: the standout feature is undefined exactly when no result has a
    feature; otherwise it is a feature of some result. *)
Theorem standoutFeature_defined_iff (ranked : list Ranked) :
  (standoutFeature (insights ranked) = None <-> featuresOf ranked = [])
  /\ (forall f, standoutFeature (insights ranked) = Some f ->
                exists r, In r ranked /\ In f (Temple.features (temple r))).
Proof.
  cbn [insights standoutFeature]. unfold JsMap.entries.
  rewrite CountFacts.featureCounts_fold, CountFacts.fold_bump.
  split.
  - split.
    + intros Hnone. destruct (featuresOf ranked) as [|x l] eqn:E; [reflexivity|].
      destruct (top_of_table_exists (x :: l)) as (v & Hv); [discriminate|].
      rewrite Hv in Hnone. discriminate.
    + intros ->. reflexivity.
  - intros f Hf. apply top_of_table, firstMostFrequent_In in Hf.
    unfold featuresOf in Hf. apply in_flat_map in Hf. exact Hf.
Qed.

Lemma partition_perm {A : Type} (p : A -> bool) (l : list A) :
  Permutation (filter p l ++ filter (fun x => negb (p x)) l) l.
Proof.
  induction l as [|x l IH]; [reflexivity|].
  cbn [filter]. destruct (p x); cbn [negb app].
  - now constructor.
  - rewrite <- Permutation_middle. now constructor.
Qed.

(** [Object.entries] lists every own property once. *)
Lemma entries_perm (o : JsObject.t) : Permutation (JsObject.entries o) o.
Proof.
  unfold JsObject.entries. rewrite Array_sort_perm. apply partition_perm.
Qed.

Lemma occurrences_nonneg (values : list string) (w : string) :
  0 <= occurrences values w.
Proof. unfold occurrences. lia. Qed.

(** X19: over a non-empty result list whose traditions are not names
    inherited from [Object.prototype], the dominant tradition is a tradition
    of some result and no tradition occurs more often, array-index keys
    included. *)
Theorem dominant_tradition_is_most_frequent (ranked : list Ranked) :
  ranked <> [] ->
  (forall t, In t (traditionsOf ranked) -> JsObject.isInherited t = false) ->
  exists v,
    mostCommonTradition (insights ranked) = Some v
    /\ In v (traditionsOf ranked)
    /\ forall w, occurrences (traditionsOf ranked) w
                 <= occurrences (traditionsOf ranked) v.
Proof.
  intros Hne _.
  cbn [insights mostCommonTradition].
  rewrite CountFacts.topTraditions_fold, CountFacts.fold_bump.
  set (values := traditionsOf ranked).
  set (tab := table (occurrences values) (JsSet.from values)).
  assert (Htab : tab <> []).
  { subst tab values. destruct ranked as [|r l]; [now contradiction Hne|].
    assert (H : In (Temple.tradition (temple r)) (JsSet.from (traditionsOf (r :: l))))
      by (apply JsSetFacts.from_In; now left).
    destruct (JsSet.from (traditionsOf (r :: l))); [destruct H | discriminate]. }
  assert (Hent : JsObject.entries tab <> []).
  { intros E. apply Htab, Permutation_nil. rewrite <- E.
    apply entries_perm. }
  destruct (sort_nonempty byCountDesc _ Hent) as ([v c] & t & Hsort).
  rewrite Hsort. cbn [hd_error option_map fst]. exists v. split; [reflexivity|].
  destruct (hd_sort_descending snd _ _ _ Hsort) as (p & s & Hsplit & Hp & Hs).
  assert (Hin : In (v, c) tab).
  { apply (Permutation_in _ (entries_perm tab)). rewrite Hsplit, in_app_iff.
    right. now left. }
  unfold tab, table in Hin. apply in_map_iff in Hin as (k & [= -> <-] & Hk).
  apply (proj1 (JsSetFacts.from_In _ _)) in Hk. split; [exact Hk|].
  intros w. destruct (in_dec string_dec w values) as [Hw|Hw].
  - assert (Hwe : In (w, occurrences values w) (JsObject.entries tab)).
    { apply (Permutation_in _ (Permutation_sym (entries_perm tab))).
      unfold tab, table. apply in_map_iff. exists w. split; [reflexivity|].
      now apply JsSetFacts.from_In. }
    rewrite Hsplit, in_app_iff in Hwe. rewrite Forall_forall in Hp, Hs.
    destruct Hwe as [Hwe|[Hwe|Hwe]].
    + apply Z.lt_le_incl. exact (Hp _ Hwe).
    + injection Hwe as <- _. lia.
    + exact (Hs _ Hwe).
  - rewrite (CountFacts.occurrences_absent _ _ Hw). apply occurrences_nonneg.
Qed.

Lemma dominant_tradition_is_most_frequent_witness :
  let ranked := [entryOfTradition "2"; entryOfTradition "1"; entryOfTradition "2"] in
  exists v,
    mostCommonTradition (insights ranked) = Some v
    /\ In v (traditionsOf ranked)
    /\ forall w, occurrences (traditionsOf ranked) w
                 <= occurrences (traditionsOf ranked) v.
Proof.
  intros ranked.
  apply (dominant_tradition_is_most_frequent ranked); [discriminate|].
  intros t [<-|[<-|[<-|[]]]]; reflexivity.
Defined.

(** ** The search term: case, and the orders it does not touch *)

Lemma is_space_lower_char (c : ascii) :
  JsString.is_space (JsString.lower_char c) = JsString.is_space c.
Proof. destruct c as [[] [] [] [] [] [] [] []]; reflexivity. Qed.

Lemma toLowerCase_trimStart (s : string) :
  JsString.toLowerCase (JsString.trimStart s)
  = JsString.trimStart (JsString.toLowerCase s).
Proof.
  induction s as [|c s IH]; [reflexivity|].
  cbn [JsString.trimStart JsString.toLowerCase]. rewrite is_space_lower_char.
  destruct (JsString.is_space c); [exact IH | reflexivity].
Qed.

Lemma toLowerCase_trimEnd (s : string) :
  JsString.toLowerCase (JsString.trimEnd s)
  = JsString.trimEnd (JsString.toLowerCase s).
Proof.
  induction s as [|c s IH]; [reflexivity|].
  cbn [JsString.trimEnd JsString.toLowerCase]. rewrite <- IH, is_space_lower_char.
  destruct (JsString.trimEnd s); cbn [JsString.toLowerCase];
    [destruct (JsString.is_space c)|]; reflexivity.
Qed.

Lemma toLowerCase_trim (s : string) :
  JsString.toLowerCase (JsString.trim s) = JsString.trim (JsString.toLowerCase s).
Proof.
  unfold JsString.trim. now rewrite toLowerCase_trimEnd, toLowerCase_trimStart.
Qed.

(** X20: the search is case-insensitive: two search terms with the same
    case-folded form give the same result list, scores included. *)
Theorem search_is_case_insensitive
    (temples : list Temple.t) (qs : QueryState) (s1 s2 : string) :
  JsString.toLowerCase s1 = JsString.toLowerCase s2 ->
  rankedTemples temples (withSearchTerm qs s1)
  = rankedTemples temples (withSearchTerm qs s2).
Proof.
  intros E.
  assert (Hn : normalizedSearch (withSearchTerm qs s1)
               = normalizedSearch (withSearchTerm qs s2)).
  { unfold normalizedSearch. cbn [searchTerm withSearchTerm].
    now rewrite !toLowerCase_trim, E. }
  unfold rankedTemples, retained, scored. now rewrite Hn.
Qed.

Lemma search_is_case_insensitive_witness :
  JsString.toLowerCase "ANGKOR" = JsString.toLowerCase "Angkor"
  /\ rankedTemples [borobudur; angkorWat] (withSearchTerm (browseAll "" relevance) "ANGKOR")
     = rankedTemples [borobudur; angkorWat]
         (withSearchTerm (browseAll "" relevance) "Angkor").
Proof.
  split; [reflexivity|].
  exact (search_is_case_insensitive [borobudur; angkorWat]
           (browseAll "" relevance) "ANGKOR" "Angkor" eq_refl).
Defined.

Section SortMap.

Context {A B : Type} (g : A -> B) (cA : A -> A -> Q) (cB : B -> B -> Q).
Hypothesis cA_cB : forall a b, cA a b = cB (g a) (g b).

Lemma insert_sorted_map (x : A) (l : list A) :
  map g (insert_sorted cA x l) = insert_sorted cB (g x) (map g l).
Proof.
  induction l as [|y l IH]; [reflexivity|].
  cbn [insert_sorted map]. rewrite cA_cB.
  destruct (Qle_bool (cB (g x) (g y)) 0); cbn [map]; [reflexivity|].
  now rewrite IH.
Qed.

(** Sorting by a comparator that reads its arguments through [g] commutes
    with mapping [g]. *)
Lemma Array_sort_map (l : list A) :
  map g (Array_sort cA l) = Array_sort cB (map g l).
Proof.
  induction l as [|x l IH]; [reflexivity|].
  cbn [Array_sort fold_right map].
  fold (Array_sort cA l). fold (Array_sort cB (map g l)).
  now rewrite insert_sorted_map, IH.
Qed.

End SortMap.

(** X21: under [oldest], [newest] and [significance] the search term has no
    effect on which temples are listed or on their order; it only changes
    the scores attached. *)
Theorem search_reorders_only_under_relevance
    (temples : list Temple.t) (qs : QueryState) (term : string) :
  sortOrder qs <> relevance ->
  map temple (rankedTemples temples (withSearchTerm qs term))
  = map temple (rankedTemples temples qs).
Proof.
  intros Hord.
  assert (H : forall q : QueryState,
             sortOrder q = sortOrder qs ->
             selection q = selection qs ->
             map temple (rankedTemples temples q)
             = Array_sort
                 (fun a b => compareRanked (sortOrder qs)
                               {| temple := a; score := 0 |}
                               {| temple := b; score := 0 |})
                 (filter (fun t => matchesFilters t (selection qs)) temples)).
  { intros q Ho Hsel. unfold rankedTemples.
    rewrite <- Hsel, <- temples_of_retained, Ho.
    apply Array_sort_map. intros a b.
    destruct (sortOrder qs); [now contradiction Hord | reflexivity ..]. }
  rewrite (H (withSearchTerm qs term) eq_refl eq_refl).
  rewrite (H qs eq_refl eq_refl). reflexivity.
Qed.

Lemma search_reorders_only_under_relevance_witness :
  sortOrder (browseAll "" oldest) <> relevance
  /\ map temple (rankedTemples [angkorWat; borobudur]
                   (withSearchTerm (browseAll "" oldest) "angkor"))
     = map temple (rankedTemples [angkorWat; borobudur] (browseAll "" oldest)).
Proof.
  assert (H : sortOrder (browseAll "" oldest) <> relevance) by discriminate.
  split; [exact H|].
  exact (search_reorders_only_under_relevance [angkorWat; borobudur]
           (browseAll "" oldest) "angkor" H).
Defined.

(** ** Filters compose by intersection *)

(** X22: an entry is listed under a query state exactly when it is listed
    under each of the four states that keep one of its selections and set the
    other three to ["All"]. *)
Theorem filters_intersect
    (temples : list Temple.t) (qs : QueryState) (r : Ranked) :
  In r (rankedTemples temples qs) <->
  In r (rankedTemples temples (setSelectedRegion (clearFilters qs) (selectedRegion qs)))
  /\ In r (rankedTemples temples
             (setSelectedTradition (clearFilters qs) (selectedTradition qs)))
  /\ In r (rankedTemples temples
             (setSelectedEnvironment (clearFilters qs) (selectedEnvironment qs)))
  /\ In r (rankedTemples temples
             (setSelectedFeature (clearFilters qs) (selectedFeature qs))).
Proof.
  rewrite !In_rankedTemples, !In_retained.
  unfold matchesFilters, selection, normalizedSearch, clearFilters.
  cbn [opt_region opt_tradition opt_environment opt_feature
       setSelectedRegion setSelectedTradition setSelectedEnvironment
       setSelectedFeature selectedRegion selectedTradition
       selectedEnvironment selectedFeature searchTerm].
  rewrite (String.eqb_refl ALL_OPTION). cbn [orb andb].
  rewrite !andb_true_r, !andb_true_iff. tauto.
Qed.
